(** * doc_to_audio.py: text normalisation, chunking, retry and assembly

    A shallow embedding of the pipeline of [src/doc_to_audio.py]:
    [clean_and_prepare_text], [_get_text_chunks],
    [_convert_chunk_to_audio] and [convert_text_to_mp3_chunked].

    Python's [str] is a sequence of Unicode code points: a character is
    its code point in [N] and a string is a list of them.  Python's [int]
    is unbounded: [Z].  The two [re.sub] calls go through a small
    backtracking matcher for quantified character classes, which is all
    the two patterns of the source use. *)

From Stdlib Require Import List NArith ZArith Lia Bool Arith.
From Stdlib Require Import Strings.String Strings.Ascii.
From Stdlib Require Import DecimalString.
Import ListNotations.

Set Implicit Arguments.

Local Abbreviation length := Datatypes.length.
Local Abbreviation concat := List.concat.

(** ** Characters and strings *)

Module Py.

Definition char := N.
Definition str := list char.

(** A literal of the source, read as code points. *)
Definition lit (s : string) : str :=
  List.map N_of_ascii (list_ascii_of_string s).

Definition NL : char := 10%N.          (* '\n' *)
Definition SP : char := 32%N.          (* ' '  *)
Definition DASH : char := 45%N.        (* '-'  *)
Definition EQUALS : char := 61%N.      (* '='  *)
Definition UNDERSCORE : char := 95%N.  (* '_'  *)
Definition STAR : char := 42%N.        (* '*'  *)

(** [str.isspace] on one code point; it is also the class [\s] of a
    [str] pattern and the set that [str.strip()] removes. *)
Definition isspace (c : char) : bool :=
  ((9 <=? c) && (c <=? 13) || (28 <=? c) && (c <=? 32)
   || (c =? 133) || (c =? 160) || (c =? 5760)
   || (8192 <=? c) && (c <=? 8202)
   || (c =? 8232) || (c =? 8233) || (c =? 8239) || (c =? 8287)
   || (c =? 12288))%N.

(** *** [str.replace] for a one-character pattern and replacement *)
Definition replace (old new : char) (s : str) : str :=
  List.map (fun c => if N.eqb c old then new else c) s.

(** *** [str.strip()] *)
Fixpoint lstrip (s : str) : str :=
  match s with
  | [] => []
  | c :: s' => if isspace c then lstrip s' else s
  end.

Definition rstrip (s : str) : str := rev (lstrip (rev s)).

Definition strip (s : str) : str := rstrip (lstrip s).

(** *** [str.split(sep)] for a one-character separator: the pieces
    between separators, empty ones kept, never the empty list. *)
Fixpoint split (sep : char) (s : str) : list str :=
  match s with
  | [] => [[]]
  | c :: s' =>
      if N.eqb c sep then [] :: split sep s'
      else match split sep s' with
           | piece :: rest => (c :: piece) :: rest
           | [] => [[c]]
           end
  end.

(** *** [sep.join(pieces)] *)
Fixpoint join (sep : str) (pieces : list str) : str :=
  match pieces with
  | [] => []
  | [p] => p
  | p :: rest => p ++ sep ++ join sep rest
  end.

(** *** Slices [s[lo:hi]] with [0 <= lo <= hi] *)
Definition slice (s : str) (lo hi : nat) : str :=
  firstn (hi - lo) (skipn lo s).

(** *** [range(start, stop, step)]; [None] is the [ValueError] of a zero
    step. *)
Definition range (start stop step : Z) : option (list Z) :=
  if (step =? 0)%Z then None
  else
    let n := if (0 <? step)%Z
             then Z.max 0 ((stop - start + step - 1) / step)
             else Z.max 0 ((start - stop - step - 1) / (- step)) in
    Some (List.map (fun k => (start + Z.of_nat k * step)%Z)
                   (seq 0 (Z.to_nat n))).

End Py.

(** ** Regular expressions: quantified character classes *)

Module Re.
Import Py.

(** One item [cls{lo,hi}]; [hi = None] is an open upper bound.  All
    quantifiers of the source are greedy. *)
Record item := Item { cls : char -> bool; lo : nat; hi : option nat }.

Definition pattern := list item.

(** Length of the longest prefix of [s] inside the class. *)
Fixpoint run (p : char -> bool) (s : str) : nat :=
  match s with
  | c :: s' => if p c then S (run p s') else 0
  | [] => 0
  end.

(** Greedy choice with backtracking: try [k], [k-1], ... down to [lo]
    repetitions, the first one after which the rest of the pattern
    matches wins.  [k] counts down from [lo + d]. *)
Fixpoint try_down (rest : str -> option nat) (s : str) (lo d : nat)
  : option nat :=
  match rest (skipn (lo + d) s) with
  | Some n => Some (lo + d + n)
  | None => match d with
            | 0 => None
            | S d' => try_down rest s lo d'
            end
  end.

(** [match_at pat s]: the length of the match of [pat] anchored at the
    start of [s], as the backtracking engine finds it. *)
Fixpoint match_at (pat : pattern) (s : str) : option nat :=
  match pat with
  | [] => Some 0
  | it :: pat' =>
      let avail := run (cls it) s in
      let most := match hi it with
                  | Some h => Nat.min h avail
                  | None => avail
                  end in
      if most <? lo it then None
      else try_down (match_at pat') s (lo it) (most - lo it)
  end.

(** [re.sub(pat, repl, s)] for a pattern that matches no empty string:
    scan left to right; at a position where the pattern matches, emit
    [repl] and skip the match; elsewhere copy the character.  [skip] is
    the number of characters of the current match still to pass. *)
Fixpoint sub_from (pat : pattern) (repl : str) (skip : nat) (s : str)
  : str :=
  match s with
  | [] => []
  | c :: s' =>
      match skip with
      | S k => sub_from pat repl k s'
      | 0 =>
          match match_at pat s with
          | Some (S n) => repl ++ sub_from pat repl n s'
          | _ => c :: sub_from pat repl 0 s'
          end
      end
  end.

Definition sub (pat : pattern) (repl : str) (s : str) : str :=
  sub_from pat repl 0 s.

End Re.

(** ** The text normaliser *)

Import Py.

(** The class [[-=_*]] of line 49. *)
Definition is_decoration (c : char) : bool :=
  (N.eqb c DASH || N.eqb c EQUALS || N.eqb c UNDERSCORE || N.eqb c STAR).

Definition is_newline (c : char) : bool := N.eqb c NL.

(** [r'[-=_*]{3,}'] *)
Definition decoration_run : Re.pattern :=
  [Re.Item is_decoration 3 None].

(** [r'\n\s*\n'] *)
Definition blank_lines : Re.pattern :=
  [Re.Item is_newline 1 (Some 1);
   Re.Item isspace 0 None;
   Re.Item is_newline 1 (Some 1)].

(** Step 1 of [clean_and_prepare_text] (line 49). *)
Definition remove_decorations (text : str) : str :=
  Re.sub decoration_run [] text.

(** Step 2 (line 52). *)
Definition collapse_blank_lines (text : str) : str :=
  Re.sub blank_lines [NL] text.

(** Step 3 (line 55). *)
Definition join_lines (text : str) : str :=
  replace NL SP text.

Definition clean_and_prepare_text (text : str) : str :=
  let text := remove_decorations text in
  let text := collapse_blank_lines text in
  let text := join_lines text in
  text.

(** ** Errors *)

(** The exceptions that reach the modelled code: [ValueError] of
    [range], [requests.exceptions.HTTPError] with the status code of
    its response, and any other exception of the libraries. *)
Inductive exn :=
| ValueError
| HTTPError (status_code : Z)
| OtherError (name : string).

Inductive result (A : Type) :=
| Return (a : A)
| Raise (e : exn).

Arguments Return {A} a.
Arguments Raise {A} e.

(** ** The chunk splitter *)

(** [[p.strip() for p in text.split('\n') if p.strip()]] (line 65). *)
Definition paragraphs (text : str) : list str :=
  List.map strip
    (List.filter (fun p => negb (Nat.eqb (length (strip p)) 0))
       (split NL text)).

(** Lines 71-72: [for i in range(0, len(para), max_chunk_size):
    chunks.append(para[i:i + max_chunk_size])]. *)
Definition append_slices (para : str) (max_chunk_size : Z)
  (chunks : list str) : result (list str) :=
  match range 0 (Z.of_nat (length para)) max_chunk_size with
  | None => Raise ValueError
  | Some indices =>
      Return
        (fold_left
           (fun chunks i =>
              chunks ++ [slice para (Z.to_nat i)
                           (Z.to_nat (i + max_chunk_size))])
           indices chunks)
  end.

(** Lines 67-72, the body of the loop over paragraphs. *)
Definition add_paragraph (max_chunk_size : Z) (chunks : list str)
  (para : str) : result (list str) :=
  if (Z.of_nat (length para) <=? max_chunk_size)%Z
  then Return (chunks ++ [para])
  else append_slices para max_chunk_size chunks.

Fixpoint for_paragraphs (max_chunk_size : Z) (paras : list str)
  (chunks : list str) : result (list str) :=
  match paras with
  | [] => Return chunks
  | para :: rest =>
      match add_paragraph max_chunk_size chunks para with
      | Return chunks' => for_paragraphs max_chunk_size rest chunks'
      | Raise e => Raise e
      end
  end.

Definition default_max_chunk_size : Z := 3000.

Definition _get_text_chunks (text : str) (max_chunk_size : Z)
  : result (list str) :=
  for_paragraphs max_chunk_size (paragraphs text) [].

(** ** The audio library and the speech service *)

(** What the code uses of pydub's [AudioSegment]: [AudioSegment.empty()],
    [+] and [len] (the duration in milliseconds, which is also the truth
    value of a segment: a class with [__len__] and no [__bool__]). *)
Record AudioLib := {
  AudioSegment :> Type;
  audio_empty : AudioSegment;
  audio_add : AudioSegment -> AudioSegment -> AudioSegment;
  audio_len : AudioSegment -> nat
}.

(** What one pass through the [try] block of lines 84-88 does: the
    request to the service and the decoding of its answer. *)
Inductive attempt_outcome (A : Type) :=
| Decoded (seg : A)
| Failed (e : exn).

Arguments Decoded {A} seg.
Arguments Failed {A} e.

Inductive warning :=
| RateLimitHit (delay : Z) (attempt retries : nat)
| SkippingChunk (characters : nat).

(** What the run does to the outside, in order. *)
Inductive event :=
| Synthesize (chunk : str) (tld : string)
| Warning (w : warning)
| Sleep (seconds : Z)
| ProgressStart
| Progress (done total : nat).

(** The number of requests made so far and the events so far. *)
Record world := World { calls : nat; log : list event }.

Definition emit (e : event) (w : world) : world :=
  {| calls := calls w; log := log w ++ [e] |}.

(** Computations that read and extend the world and may raise. *)
Definition M (A : Type) : Type := world -> result A * world.

Definition ret {A} (a : A) : M A := fun w => (Return a, w).

Definition raise {A} (e : exn) : M A := fun w => (Raise e, w).

Definition bind {A B} (m : M A) (k : A -> M B) : M B :=
  fun w => match m w with
           | (Return a, w') => k a w'
           | (Raise e, w') => (Raise e, w')
           end.

Definition tell (e : event) : M unit := fun w => (Return tt, emit e w).

(** [try: body except requests.exceptions.HTTPError as e: handler]. *)
Definition except_HTTPError {A} (body : M A) (handler : Z -> M A) : M A :=
  fun w => match body w with
           | (Raise (HTTPError status_code), w') => handler status_code w'
           | r => r
           end.

Declare Scope m_scope.
Delimit Scope m_scope with m.
Notation "x <- m ;; k" := (bind m (fun x => k))
  (at level 61, m at next level, right associativity) : m_scope.
Notation "m ;;; k" := (bind m (fun _ => k))
  (at level 61, right associativity) : m_scope.
Open Scope m_scope.

Section Pipeline.

Variable audio : AudioLib.

(** The service: the outcome of the [n]-th request of the run, for the
    text and the accent it is asked for. *)
Variable tts : nat -> str -> string -> attempt_outcome audio.

(** Lines 84-88. *)
Definition synthesize (chunk : str) (tld : string) : M audio :=
  fun w =>
    let w' := {| calls := S (calls w);
                 log := log w ++ [Synthesize chunk tld] |} in
    match tts (calls w) chunk tld with
    | Decoded seg => (Return seg, w')
    | Failed e => (Raise e, w')
    end.

Definition retries : nat := 3.
Definition initial_delay : Z := 5.

(** The loop of lines 82-95 over the remaining values of [attempt]. *)
Fixpoint attempt_loop (chunk : str) (tld : string) (attempts : list nat)
  (delay : Z) : M (option audio) :=
  match attempts with
  | [] => ret None
  | attempt :: rest =>
      except_HTTPError
        (seg <- synthesize chunk tld ;; ret (Some seg))
        (fun status_code =>
           if (status_code =? 429)%Z
           then
             tell (Warning (RateLimitHit delay (attempt + 1) retries)) ;;;
             tell (Sleep delay) ;;;
             attempt_loop chunk tld rest (delay * 2)
           else raise (HTTPError status_code))
  end.

(** Lines 80-96.  The [session] argument is never used by the body. *)
Definition _convert_chunk_to_audio (chunk : str) (tld : string)
  : M (option audio) :=
  attempt_loop chunk tld (seq 0 retries) initial_delay.

(** The truth value of [chunk_audio] in [if chunk_audio:] (line 115):
    [None] is false and a segment is true when its [len] is not 0. *)
Definition truthy (chunk_audio : option audio) : bool :=
  match chunk_audio with
  | None => false
  | Some seg => negb (Nat.eqb (audio_len audio seg) 0)
  end.

(** Lines 113-121, one turn of the loop over [enumerate(text_chunks)]. *)
Definition process_chunk (tld : string) (total : nat)
  (combined_audio : audio) (i : nat) (chunk : str) : M audio :=
  chunk_audio <- _convert_chunk_to_audio chunk tld ;;
  match chunk_audio with
  | Some seg =>
      if truthy chunk_audio
      then
        let combined_audio := audio_add audio combined_audio seg in
        tell (Progress (i + 1) total) ;;;
        ret combined_audio
      else
        tell (Warning (SkippingChunk (length chunk))) ;;;
        ret combined_audio
  | None =>
      tell (Warning (SkippingChunk (length chunk))) ;;;
      ret combined_audio
  end.

Fixpoint for_chunks (tld : string) (total : nat)
  (combined_audio : audio) (i : nat) (text_chunks : list str)
  : M audio :=
  match text_chunks with
  | [] => ret combined_audio
  | chunk :: rest =>
      combined_audio <- process_chunk tld total combined_audio i chunk ;;
      for_chunks tld total combined_audio (S i) rest
  end.

(** Lines 107-126 for a given list of chunks.  The result stands for the
    [BytesIO] that holds the one encoding of [combined_audio]. *)
Definition assemble (text_chunks : list str) (tld : string) : M audio :=
  let combined_audio := audio_empty audio in
  tell ProgressStart ;;;
  for_chunks tld (length text_chunks) combined_audio 0 text_chunks.

Definition convert_text_to_mp3_chunked (text : str) (tld : string)
  : M (option audio) :=
  if Nat.eqb (length (strip text)) 0 then ret None
  else
    match _get_text_chunks text default_max_chunk_size with
    | Raise e => raise e
    | Return text_chunks =>
        final_fp <- assemble text_chunks tld ;;
        ret (Some final_fp)
    end.

End Pipeline.

Arguments synthesize {audio} tts chunk tld _.
Arguments attempt_loop {audio} tts chunk tld attempts delay _.
Arguments _convert_chunk_to_audio {audio} tts chunk tld _.
Arguments truthy {audio} chunk_audio.
Arguments process_chunk {audio} tts tld total combined_audio i chunk _.
Arguments for_chunks {audio} tts tld total combined_audio i text_chunks _.
Arguments assemble {audio} tts text_chunks tld _.
Arguments convert_text_to_mp3_chunked {audio} tts text tld _.

(** ** Definitions used to state the properties *)

(** The maximal blocks of [s]: each block lies wholly inside or wholly
    outside the class [p], and neighbouring blocks differ in that. *)
Fixpoint blocks (p : char -> bool) (s : str) : list (bool * str) :=
  match s with
  | [] => []
  | c :: s' =>
      match blocks p s' with
      | (b, blk) :: rest =>
          if Bool.eqb b (p c) then (b, c :: blk) :: rest
          else (p c, [c]) :: (b, blk) :: rest
      | [] => [(p c, [c])]
      end
  end.

(** [s] with every maximal run of 3 or more characters of the class
    replaced by the empty string, everything else kept. *)
Definition without_long_runs (p : char -> bool) (s : str) : str :=
  concat
    (List.map snd
       (List.filter
          (fun b => negb (fst b && (3 <=? length (snd b))))
          (blocks p s))).

(** The class the prose names for step 1: dash, equals sign, asterisk. *)
Definition dash_equals_asterisk (c : char) : bool :=
  N.eqb c DASH || N.eqb c EQUALS || N.eqb c STAR.

(** No three characters of the class [[-=_*]] in a row, [n] of them
    standing just before [s]. *)
Fixpoint short_runs (n : nat) (s : str) : bool :=
  match s with
  | [] => true
  | c :: s' =>
      if is_decoration c then (S n <? 3) && short_runs (S n) s'
      else short_runs 0 s'
  end.

(** The chunks put back together: the chunks of one paragraph
    concatenated, one separator between paragraphs. *)
Definition reassemble (groups : list (list str)) : str :=
  join [NL] (List.map (@List.concat char) groups).

(** The chunks that [add_paragraph] appends for each paragraph. *)
Definition chunk_groups (max_chunk_size : Z) (paras : list str)
  (groups : list (list str)) : Prop :=
  Forall2 (fun para g => add_paragraph max_chunk_size [] para = Return g)
    paras groups.

(** What the retry loop has done when [k] attempts in a row met a rate
    limit: a request, a warning and a wait each, the wait doubling. *)
Definition backoff_events (chunk : str) (tld : string) (k : nat)
  : list event :=
  flat_map
    (fun i => [Synthesize chunk tld;
               Warning (RateLimitHit (5 * 2 ^ Z.of_nat i) (i + 1) 3);
               Sleep (5 * 2 ^ Z.of_nat i)])
    (seq 0 k).

(** The concatenation of segments, as [+] builds it from
    [AudioSegment.empty()]. *)
Definition concat_audio (audio : AudioLib) (segs : list audio) : audio :=
  fold_left (audio_add audio) segs (audio_empty audio).

Arguments concat_audio {audio} segs.

(** The requests numbered [n], [n + 1], ... are made for the chunks in
    turn and each is answered with the segment at the same place in
    [segs]. *)
Fixpoint spoken_in_turn (audio : AudioLib)
  (tts : nat -> str -> string -> attempt_outcome audio) (tld : string)
  (n : nat) (text_chunks : list str) (segs : list audio) : Prop :=
  match text_chunks, segs with
  | [], [] => True
  | chunk :: text_chunks', seg :: segs' =>
      tts n chunk tld = Decoded seg
      /\ spoken_in_turn audio tts tld (S n) text_chunks' segs'
  | _, _ => False
  end.

Arguments spoken_in_turn {audio} tts tld n text_chunks segs.

(** ** The speech library *)

(** What the libraries do in one pass through lines 84-88: gTTS sends
    the text to the service and pydub decodes the answer.  The service
    may answer with audio, or with an HTTP error status, or the pass may
    fail in another way (no connection, an answer that does not
    decode). *)
Inductive library_outcome (A : Type) :=
| Spoken (seg : A)
| HTTPFailure (status_code : Z)
| OtherFailure (name : string).

Arguments Spoken {A} seg.
Arguments HTTPFailure {A} status_code.
Arguments OtherFailure {A} name.

(** How that reaches the [try] block.  gTTS does not let a failed
    request through as requests' [HTTPError]: [write_to_fp] catches it
    and raises the library's own [gTTSError], whatever the status, and
    [gTTSError] is no subclass of [HTTPError]. *)
Definition try_block (A : Type) (o : library_outcome A)
  : attempt_outcome A :=
  match o with
  | Spoken seg => Decoded seg
  | HTTPFailure _ => Failed (OtherError "gTTSError")
  | OtherFailure name => Failed (OtherError name)
  end.

Definition via_gtts (audio : AudioLib)
  (service : nat -> str -> string -> library_outcome audio)
  : nat -> str -> string -> attempt_outcome audio :=
  fun n chunk tld => try_block (service n chunk tld).

Arguments via_gtts {audio} service n chunk tld.

(** The first [n] slices of width [m] of a paragraph. *)
Definition pieces (m : nat) (para : str) (n : nat) : list str :=
  List.map (fun k => firstn m (skipn (k * m) para)) (seq 0 n).

(** The number of slices that [range(0, len, M)] yields for [M >= 1]. *)
Definition slice_count (len : nat) (M : Z) : nat :=
  Z.to_nat ((Z.of_nat len + M - 1) / M).

(** The world after one more request for [chunk]. *)
Definition requested (chunk : str) (tld : string) (w : world) : world :=
  {| calls := S (calls w); log := log w ++ [Synthesize chunk tld] |}.

(** A library instance to run the pipeline on: a segment is its list of
    samples, one per millisecond. *)
Definition Samples : AudioLib :=
  {| AudioSegment := list Z;
     audio_empty := [];
     audio_add := @app Z;
     audio_len := @Datatypes.length Z |}.

Definition world0 : world := World 0 [].

(** A service that decodes a chunk to one sample per character after a
    leading sample, but answers 429 to the requests numbered 1 to 3. *)
Definition tts_busy_once (n : nat) (chunk : str) (tld : string)
  : attempt_outcome Samples :=
  if (1 <=? n) && (n <=? 3) then Failed (HTTPError 429)
  else Decoded (0%Z :: List.map Z.of_N chunk).

(** The chunks that one paragraph gives for a maximum of at least 1,
    without the loops: the paragraph itself, or its slices
    [para[k*M:(k+1)*M]] for [k] below the number of slices. *)
Definition para_group (M : Z) (para : str) : list str :=
  if (Z.of_nat (length para) <=? M)%Z then [para]
  else pieces (Z.to_nat M) para (slice_count (length para) M).

(** Characters that are neither white space nor of the class [[-=_*]]. *)
Definition is_content (c : char) : bool :=
  negb (is_decoration c) && negb (isspace c).

(** The seconds spent in [time.sleep] according to a log. *)
Fixpoint slept (l : list event) : Z :=
  match l with
  | [] => 0
  | Sleep seconds :: l' => seconds + slept l'
  | _ :: l' => slept l'
  end.

(** The segments among [segs] that are true in [if chunk_audio:]. *)
Definition true_segments (audio : AudioLib) (segs : list audio)
  : list audio :=
  List.filter (fun seg => negb (Nat.eqb (audio_len audio seg) 0)) segs.

Arguments true_segments {audio} segs.

(** A service that answers every request with HTTP 429. *)
Definition service_rate_limited (n : nat) (chunk : str) (tld : string)
  : library_outcome Samples :=
  HTTPFailure 429.

(** A service that answers its first two requests with HTTP 429 and
    the later ones with audio. *)
Definition service_busy_twice (n : nat) (chunk : str) (tld : string)
  : library_outcome Samples :=
  if n <? 2 then HTTPFailure 429
  else Spoken (0%Z :: List.map Z.of_N chunk).

(** A service that answers its [k]-th request with HTTP 500 and the
    others with audio. *)
Definition service_down_at (k : nat) (n : nat) (chunk : str)
  (tld : string) : library_outcome Samples :=
  if n =? k then HTTPFailure 500
  else Spoken (0%Z :: List.map Z.of_N chunk).

(** A service that answers every request with audio, one sample for
    each character but none for the letter B: the chunk [B] gives a
    segment of length 0. *)
Definition service_silent_B (n : nat) (chunk : str) (tld : string)
  : library_outcome Samples :=
  Spoken (List.filter (fun z => negb (z =? 66)%Z) (List.map Z.of_N chunk)).

(** A service whose second request fails with HTTP 503. *)
Definition tts_down_at_second (n : nat) (chunk : str) (tld : string)
  : attempt_outcome Samples :=
  if n =? 1 then Failed (HTTPError 503)
  else Decoded (List.map Z.of_N chunk).

(** ** The text of the shareholder letters (lines 175 and 196-204) *)

(** [str(n)] for an [int]: its decimal digits, after a minus sign when
    it is negative. *)
Definition str_of_int (n : Z) : str :=
  lit (NilZero.string_of_int (Z.to_int n)).

(** The line that announces a letter. *)
Definition header_line (year : Z) : str :=
  lit "--- Berkshire Hathaway Shareholder Letter: "
  ++ str_of_int year ++ lit " ---".

(** The f-string of line 199. *)
Definition letter_header (year : Z) : str :=
  [NL; NL] ++ header_line year ++ [NL; NL].

(** Lines 199-204 for one letter, given the text that the extractor
    returned for it: the header, then the text normalised. *)
Definition add_letter (all_text : str) (letter : Z * str) : str :=
  let (year, letter_text) := letter in
  let all_text := all_text ++ letter_header year in
  all_text ++ clean_and_prepare_text letter_text.

(** [all_text] after the loop over the letters, in the order of the
    loop. *)
Definition letters_text (letters : list (Z * str)) : str :=
  fold_left add_letter letters [].

(** * Properties *)

Example clean_demo :
  clean_and_prepare_text (lit "Title
=====
one
two


three --- four") = lit "Title one two three  four".
Proof. vm_compute. reflexivity. Qed.

Example chunks_demo :
  _get_text_chunks (lit " ab
 
cdefg ") 2 = Return [lit "ab"; lit "cd"; lit "ef"; lit "g"].
Proof. vm_compute. reflexivity. Qed.

Example chunks_zero :
  _get_text_chunks (lit "ab") 0 = Raise ValueError.
Proof. vm_compute. reflexivity. Qed.

(** ** Induction on the length of a string *)

Lemma length_ind (P : str -> Prop) :
  (forall s, (forall t, length t < length s -> P t) -> P s) ->
  forall s, P s.
Proof.
  intros step s.
  remember (length s) as n eqn:E.
  revert s E.
  induction n as [n IH] using lt_wf_ind.
  intros s ->. apply step. intros t Ht. exact (IH _ Ht t eq_refl).
Qed.

Lemma firstn_plus (A : Type) (j n : nat) (l : list A) :
  firstn (j + n) l = firstn j l ++ firstn n (skipn j l).
Proof.
  revert l. induction j as [|j IH]; intros [|a l]; simpl;
    try reflexivity.
  - now destruct n.
  - now rewrite IH.
Qed.

(** ** The matcher and [re.sub] *)

Module ReFacts.
Import Re.

Lemma run_le p s : run p s <= length s.
Proof. induction s as [|c s IH]; simpl; [|destruct (p c)]; lia. Qed.

Lemma run_firstn p s k :
  k <= run p s -> Forall (fun c => p c = true) (firstn k s).
Proof.
  revert k. induction s as [|c s IH]; intros k Hk; simpl in *.
  - replace k with 0 by lia. constructor.
  - destruct k as [|k]; [constructor|]. simpl.
    destruct (p c) eqn:E; [|lia].
    constructor; [exact E|]. apply IH. lia.
Qed.

Lemma run_skipn p s : run p (skipn (run p s) s) = 0.
Proof.
  induction s as [|c s IH]; simpl; [reflexivity|].
  destruct (p c) eqn:E; simpl; [exact IH|]. now rewrite E.
Qed.

Lemma try_down_some rest s lo d k :
  try_down rest s lo d = Some k ->
  exists j n, lo <= j <= lo + d /\ rest (skipn j s) = Some n /\ k = j + n.
Proof.
  induction d as [|d IH]; simpl.
  - destruct (rest (skipn (lo + 0) s)) eqn:E; [|discriminate].
    intros [= <-]. exists (lo + 0), n. repeat split; [lia|lia|exact E].
  - destruct (rest (skipn (lo + S d) s)) eqn:E.
    + intros [= <-]. exists (lo + S d), n. repeat split; [lia|lia|exact E].
    + intros H. destruct (IH H) as (j & n & Hj & Hr & ->).
      exists j, n. repeat split; [lia|lia|exact Hr].
Qed.

(** A match lies inside the string and consists of characters of the
    classes of the pattern. *)
Lemma match_at_inside (q : char -> bool) pat :
  (forall it c, In it pat -> cls it c = true -> q c = true) ->
  forall s k, match_at pat s = Some k ->
    k <= length s /\ Forall (fun c => q c = true) (firstn k s).
Proof.
  induction pat as [|it pat IH]; intros Hq s k; simpl.
  - intros [= <-]. split; [lia|constructor].
  - set (most := match hi it with
                 | Some h => Nat.min h (run (cls it) s)
                 | None => run (cls it) s
                 end).
    assert (Hmost : most <= run (cls it) s)
      by (subst most; destruct (hi it); lia).
    destruct (most <? lo it) eqn:E; [discriminate|].
    apply Nat.ltb_ge in E.
    intros H. apply try_down_some in H.
    destruct H as (j & n & Hj & Hr & ->).
    assert (Hjr : j <= run (cls it) s) by lia.
    apply IH in Hr; [|intros; eapply Hq; [right|]; eassumption].
    destruct Hr as [Hn Hall].
    pose proof (run_le (cls it) s) as Hle.
    rewrite length_skipn in Hn.
    split; [lia|].
    rewrite firstn_plus. apply Forall_app. split; [|exact Hall].
    eapply Forall_impl; [|apply run_firstn; exact Hjr].
    intros c Hc. apply (Hq it); [now left|exact Hc].
Qed.

Lemma sub_from_skipn pat repl k s :
  sub_from pat repl k s = sub_from pat repl 0 (skipn k s).
Proof.
  revert k. induction s as [|c s IH]; intros [|k]; simpl; try reflexivity.
  apply IH.
Qed.

(** The equation that [re.sub] obeys at a non-empty string. *)
Lemma sub_cons pat repl c s :
  sub pat repl (c :: s) =
  match match_at pat (c :: s) with
  | Some (S n) => repl ++ sub pat repl (skipn (S n) (c :: s))
  | _ => c :: sub pat repl s
  end.
Proof.
  unfold sub. cbn [sub_from].
  destruct (match_at pat (c :: s)) as [[|n]|]; try reflexivity.
  now rewrite sub_from_skipn.
Qed.

Lemma sub_nil pat repl : sub pat repl [] = [].
Proof. reflexivity. Qed.

End ReFacts.

(** ** The two patterns of the normaliser *)

Lemma match_decoration_run s :
  Re.match_at decoration_run s =
  if Re.run is_decoration s <? 3 then None
  else Some (Re.run is_decoration s).
Proof.
  unfold decoration_run. cbn [Re.match_at Re.hi Re.lo Re.cls].
  destruct (Re.run is_decoration s <? 3) eqn:E; [reflexivity|].
  apply Nat.ltb_ge in E.
  destruct (Re.run is_decoration s - 3) eqn:D; cbn [Re.try_down];
    f_equal; lia.
Qed.

Lemma match_blank_lines_head c s :
  is_newline c = false -> Re.match_at blank_lines (c :: s) = None.
Proof.
  intros H. unfold blank_lines.
  cbn [Re.match_at Re.hi Re.lo Re.cls Re.run]. now rewrite H.
Qed.

Lemma decoration_not_space c : isspace c = true -> is_decoration c = false.
Proof.
  unfold isspace, is_decoration, DASH, EQUALS, UNDERSCORE, STAR.
  intros H.
  repeat match goal with
         | |- context [N.eqb ?a ?b] =>
             destruct (N.eqb_spec a b); [subst; vm_compute in H; discriminate|]
         end.
  reflexivity.
Qed.

Lemma newline_is_space c : is_newline c = true -> isspace c = true.
Proof.
  unfold is_newline. intros H. apply N.eqb_eq in H. now subst.
Qed.

Lemma match_blank_lines_spaces s k :
  Re.match_at blank_lines s = Some k ->
  k <= length s /\ Forall (fun c => is_decoration c = false) (firstn k s).
Proof.
  intros H.
  apply (ReFacts.match_at_inside isspace) in H.
  - destruct H as [Hk Hall]. split; [exact Hk|].
    eapply Forall_impl; [|exact Hall].
    intros c. apply decoration_not_space.
  - intros it c [<-|[<-|[<-|[]]]]; simpl; auto using newline_is_space.
Qed.

(** ** Runs of decoration through the three steps *)

Lemma short_runs_bound n s :
  short_runs n s = true ->
  Re.run is_decoration s = 0 \/ n + Re.run is_decoration s < 3.
Proof.
  revert n. induction s as [|c s IH]; intros n; simpl; [now left|].
  destruct (is_decoration c); [|now left].
  intros H. apply andb_prop in H. destruct H as [Hn Hs].
  apply Nat.ltb_lt in Hn. right.
  destruct (IH _ Hs) as [E|E]; lia.
Qed.

Lemma short_runs_plain n w r :
  Forall (fun c => is_decoration c = false) w ->
  short_runs n (w ++ r) = short_runs (match w with [] => n | _ => 0 end) r.
Proof.
  intros H. revert n. induction H as [|c w Hc Hw IH]; intros n; simpl.
  - reflexivity.
  - rewrite Hc, IH. now destruct w.
Qed.

(** Step 1 leaves no run of three. *)
Lemma remove_decorations_short s :
  forall n, n = 0 \/ n + Re.run is_decoration s < 3 ->
  short_runs n (remove_decorations s) = true.
Proof.
  unfold remove_decorations.
  induction s as [s IH] using length_ind. intros n Hn.
  destruct s as [|c s]; [reflexivity|].
  rewrite ReFacts.sub_cons, match_decoration_run.
  destruct (Re.run is_decoration (c :: s) <? 3) eqn:E.
  - apply Nat.ltb_lt in E. simpl in *.
    destruct (is_decoration c) eqn:D.
    + apply andb_true_intro. split; [apply Nat.ltb_lt; lia|].
      apply IH; [simpl; lia|lia].
    + apply IH; [simpl; lia|now left].
  - apply Nat.ltb_ge in E.
    destruct (Re.run is_decoration (c :: s)) as [|r] eqn:R; [lia|].
    rewrite <- R. cbn [app].
    pose proof (ReFacts.run_le is_decoration (c :: s)) as Hle.
    apply IH.
    + rewrite length_skipn. lia.
    + right. rewrite ReFacts.run_skipn. lia.
Qed.

(** [re.sub] with a pattern and a replacement free of decoration keeps
    runs short. *)
Lemma sub_plain_short pat repl :
  (forall s k, Re.match_at pat s = Some k ->
     k <= length s /\ Forall (fun c => is_decoration c = false) (firstn k s)) ->
  repl <> [] -> Forall (fun c => is_decoration c = false) repl ->
  forall s n, short_runs n s = true ->
    short_runs n (Re.sub pat repl s) = true.
Proof.
  intros Hpat Hne Hrepl.
  induction s as [s IH] using length_ind. intros n Hs.
  destruct s as [|c s]; [reflexivity|].
  rewrite ReFacts.sub_cons.
  destruct (Re.match_at pat (c :: s)) as [[|k]|] eqn:E.
  - simpl in *. destruct (is_decoration c).
    + apply andb_prop in Hs. destruct Hs as [-> Hs]. simpl.
      apply IH; [lia|exact Hs].
    + apply IH; [lia|exact Hs].
  - destruct (Hpat _ _ E) as [Hk Hall].
    rewrite short_runs_plain by exact Hrepl.
    destruct repl as [|r0 repl]; [congruence|].
    rewrite <- (firstn_skipn (S k) (c :: s)) in Hs.
    rewrite short_runs_plain in Hs by exact Hall.
    cbn [firstn] in Hs.
    apply IH; [rewrite length_skipn; simpl in *; lia|exact Hs].
  - simpl in *. destruct (is_decoration c).
    + apply andb_prop in Hs. destruct Hs as [-> Hs]. simpl.
      apply IH; [lia|exact Hs].
    + apply IH; [lia|exact Hs].
Qed.

Lemma collapse_blank_lines_short s n :
  short_runs n s = true -> short_runs n (collapse_blank_lines s) = true.
Proof.
  apply sub_plain_short.
  - exact match_blank_lines_spaces.
  - discriminate.
  - repeat constructor.
Qed.

Lemma join_lines_short s n :
  short_runs n (join_lines s) = short_runs n s.
Proof.
  unfold join_lines, replace.
  revert n. induction s as [|c s IH]; intros n; simpl; [reflexivity|].
  destruct (N.eqb_spec c NL) as [->|Hc].
  - simpl. apply IH.
  - now rewrite !IH.
Qed.

(** Where no run reaches three, step 1 changes nothing. *)
Lemma remove_decorations_fixed s :
  forall n, short_runs n s = true -> remove_decorations s = s.
Proof.
  unfold remove_decorations.
  induction s as [|c s IH]; intros n Hs; [reflexivity|].
  rewrite ReFacts.sub_cons, match_decoration_run.
  destruct (short_runs_bound _ _ Hs) as [R|R].
  - rewrite R. simpl. f_equal.
    simpl in Hs. destruct (is_decoration c).
    + apply andb_prop in Hs. now apply (IH (S n)).
    + now apply (IH 0).
  - replace (Re.run is_decoration (c :: s) <? 3) with true
      by (symmetry; apply Nat.ltb_lt; lia).
    f_equal.
    simpl in Hs. destruct (is_decoration c).
    + apply andb_prop in Hs. now apply (IH (S n)).
    + now apply (IH 0).
Qed.

(** ** Newlines *)

Lemma join_lines_no_newline s : ~ In NL (join_lines s).
Proof.
  unfold join_lines, replace. intros H. apply in_map_iff in H.
  destruct H as (c & Hc & _).
  destruct (N.eqb_spec c NL) as [E|Hne]; [discriminate|congruence].
Qed.

Lemma collapse_blank_lines_fixed s :
  ~ In NL s -> collapse_blank_lines s = s.
Proof.
  unfold collapse_blank_lines.
  induction s as [|c s IH]; intros H; [reflexivity|].
  rewrite ReFacts.sub_cons, match_blank_lines_head.
  - f_equal. apply IH. intros Hin. apply H. now right.
  - unfold is_newline. apply N.eqb_neq. intros ->. apply H. now left.
Qed.

Lemma join_lines_fixed s : ~ In NL s -> join_lines s = s.
Proof.
  unfold join_lines, replace.
  induction s as [|c s IH]; intros H; [reflexivity|]. simpl.
  destruct (N.eqb_spec c NL) as [->|Hne].
  - exfalso. apply H. now left.
  - f_equal. apply IH. intros Hin. apply H. now right.
Qed.

(** C6: the normaliser is idempotent: [clean_and_prepare_text] applied
    to its own output gives that output back, for every input string. *)
Theorem clean_and_prepare_text_idempotent (s : str) :
  clean_and_prepare_text (clean_and_prepare_text s)
  = clean_and_prepare_text s.
Proof.
  unfold clean_and_prepare_text.
  set (t := join_lines (collapse_blank_lines (remove_decorations s))).
  assert (Hshort : short_runs 0 t = true).
  { subst t. rewrite join_lines_short.
    apply collapse_blank_lines_short, remove_decorations_short.
    now left. }
  assert (Hnl : ~ In NL t) by apply join_lines_no_newline.
  rewrite (remove_decorations_fixed _ _ Hshort).
  rewrite (collapse_blank_lines_fixed _ Hnl).
  apply (join_lines_fixed _ Hnl).
Qed.

Lemma split_no_sep sep s : ~ In sep s -> split sep s = [s].
Proof.
  induction s as [|c s IH]; intros H; [reflexivity|]. simpl.
  destruct (N.eqb_spec c sep) as [E|Hne].
  - exfalso. apply H. now left.
  - rewrite IH; [reflexivity|]. intros Hin. apply H. now right.
Qed.

(** C8: the output of [clean_and_prepare_text] holds no newline, for
    every input: it is step 3's replacement of every newline by a space
    applied to what step 2 left, so the splitter finds no paragraph
    boundary in the normalised text. *)
Theorem clean_and_prepare_text_no_newline (s : str) :
  ~ In NL (clean_and_prepare_text s)
  /\ clean_and_prepare_text s
     = replace NL SP (collapse_blank_lines (remove_decorations s))
  /\ split NL (clean_and_prepare_text s) = [clean_and_prepare_text s].
Proof.
  assert (H : ~ In NL (clean_and_prepare_text s))
    by apply join_lines_no_newline.
  split; [exact H|]. split; [reflexivity|].
  apply split_no_sep, H.
Qed.

(** ** Step 1 against the removal of maximal runs *)

Lemma blocks_head p c s :
  exists blk rest, blocks p (c :: s) = (p c, blk) :: rest.
Proof.
  simpl. destruct (blocks p s) as [|[b blk] rest]; [now eauto|].
  destruct (Bool.eqb b (p c)) eqn:E; [|now eauto].
  apply eqb_prop in E. subst b. now eauto.
Qed.

(** A string that starts with a run of the class has that whole run as
    its first block. *)
Lemma blocks_run p s :
  0 < Re.run p s ->
  blocks p s
  = (true, firstn (Re.run p s) s) :: blocks p (skipn (Re.run p s) s).
Proof.
  induction s as [|c s IH]; simpl; [lia|].
  destruct (p c) eqn:Hc; [intros _|lia].
  destruct s as [|d s]; [reflexivity|].
  destruct (Re.run p (d :: s)) as [|r] eqn:R.
  - destruct (blocks_head p d s) as (blk & rest & E).
    simpl in R. destruct (p d); [discriminate|].
    cbn [firstn skipn]. rewrite E. reflexivity.
  - rewrite IH by lia. reflexivity.
Qed.

Lemma without_long_runs_plain p c s :
  p c = false -> without_long_runs p (c :: s) = c :: without_long_runs p s.
Proof.
  intros Hc. unfold without_long_runs. simpl. rewrite Hc.
  destruct (blocks p s) as [|[[|] blk] rest]; reflexivity.
Qed.

Lemma without_long_runs_run p s :
  0 < Re.run p s ->
  without_long_runs p s
  = (if 3 <=? Re.run p s then [] else firstn (Re.run p s) s)
    ++ without_long_runs p (skipn (Re.run p s) s).
Proof.
  intros H. unfold without_long_runs. rewrite (blocks_run p s H).
  cbn [List.filter fst snd andb].
  rewrite length_firstn, Nat.min_l by apply ReFacts.run_le.
  destruct (3 <=? Re.run p s); reflexivity.
Qed.

Lemma without_long_runs_short p c s :
  p c = true -> Re.run p (c :: s) < 3 ->
  without_long_runs p (c :: s) = c :: without_long_runs p s.
Proof.
  intros Hc Hr.
  rewrite (without_long_runs_run p (c :: s)) by (simpl; rewrite Hc; lia).
  replace (3 <=? Re.run p (c :: s)) with false
    by (symmetry; apply Nat.leb_gt; exact Hr).
  simpl in *. rewrite Hc in *. simpl.
  destruct (Re.run p s) as [|r] eqn:R; [reflexivity|].
  rewrite (without_long_runs_run p s) by lia. rewrite R.
  replace (3 <=? S r) with false by (symmetry; apply Nat.leb_gt; lia).
  reflexivity.
Qed.

(** Step 1 removes the maximal runs of three or more characters of its
    own class, and only those. *)
Lemma remove_decorations_runs s :
  remove_decorations s = without_long_runs is_decoration s.
Proof.
  unfold remove_decorations.
  induction s as [s IH] using length_ind.
  destruct s as [|c s]; [reflexivity|].
  rewrite ReFacts.sub_cons, match_decoration_run.
  destruct (Re.run is_decoration (c :: s) <? 3) eqn:E.
  - apply Nat.ltb_lt in E. rewrite IH by (simpl; lia).
    destruct (is_decoration c) eqn:Hc.
    + now rewrite without_long_runs_short.
    + now rewrite without_long_runs_plain.
  - apply Nat.ltb_ge in E.
    destruct (Re.run is_decoration (c :: s)) as [|r] eqn:R; [lia|].
    rewrite <- R. cbn [app].
    pose proof (ReFacts.run_le is_decoration (c :: s)) as Hle.
    rewrite IH by (rewrite length_skipn; lia).
    rewrite (without_long_runs_run is_decoration (c :: s)) by lia.
    replace (3 <=? Re.run is_decoration (c :: s)) with true
      by (symmetry; apply Nat.leb_le; lia).
    reflexivity.
Qed.

(** C7, as stated, fails: on [a___b] step 1 removes the three
    underscores, where removing only the runs of dash, equals sign and
    asterisk would leave the string as it is. *)
Lemma remove_decorations_underscores :
  remove_decorations (lit "a___b") = lit "ab"
  /\ without_long_runs dash_equals_asterisk (lit "a___b") = lit "a___b"
  /\ ~ (forall s, remove_decorations s
                  = without_long_runs dash_equals_asterisk s).
Proof.
  split; [vm_compute; reflexivity|].
  split; [vm_compute; reflexivity|].
  intros H. specialize (H (lit "a___b")). vm_compute in H. discriminate.
Qed.

(** C7, amended: step 1 replaces every maximal run of three or more
    consecutive characters among dash, equals sign, underscore and
    asterisk by the empty string and leaves every other character, and
    every shorter run, unchanged. *)
Theorem remove_decorations_spec (s : str) :
  remove_decorations s = without_long_runs is_decoration s
  /\ (forall c, is_decoration c = true
                <-> c = DASH \/ c = EQUALS \/ c = UNDERSCORE \/ c = STAR).
Proof.
  split; [apply remove_decorations_runs|].
  intros c. unfold is_decoration.
  rewrite !orb_true_iff, !N.eqb_eq. tauto.
Qed.

(** ** Slices of one paragraph *)

Section Pieces.

Variable m : nat.
Variable para : str.

Lemma pieces_S n :
  pieces m para (S n) = pieces m para n ++ [firstn m (skipn (n * m) para)].
Proof. unfold pieces. now rewrite seq_S, map_app. Qed.

Lemma pieces_concat n : concat (pieces m para n) = firstn (n * m) para.
Proof.
  induction n as [|n IH]; [reflexivity|].
  rewrite pieces_S, concat_app, IH. simpl. rewrite app_nil_r.
  rewrite <- firstn_plus. f_equal. lia.
Qed.

Lemma pieces_bounded n : Forall (fun c => length c <= m) (pieces m para n).
Proof.
  unfold pieces. apply Forall_map, Forall_forall. intros k _.
  apply firstn_le_length.
Qed.

Lemma pieces_full n :
  n * m <= length para -> Forall (fun c => length c = m) (pieces m para n).
Proof.
  intros H. unfold pieces. apply Forall_map, Forall_forall.
  intros k Hk. apply in_seq in Hk.
  rewrite length_firstn, length_skipn. nia.
Qed.

End Pieces.

Lemma fold_left_append (A B : Type) (f : B -> A) (l : list B)
  (acc : list A) :
  fold_left (fun acc b => acc ++ [f b]) l acc = acc ++ List.map f l.
Proof.
  revert acc. induction l as [|b l IH]; intros acc; simpl.
  - now rewrite app_nil_r.
  - now rewrite IH, <- app_assoc.
Qed.

Lemma slice_count_bounds len M :
  (1 <= M)%Z -> 0 < len ->
  exists n, slice_count len M = S n
            /\ n * Z.to_nat M < len <= S n * Z.to_nat M.
Proof.
  intros HM Hlen. unfold slice_count.
  set (q := ((Z.of_nat len + M - 1) / M)%Z).
  assert (Hq : (M * q <= Z.of_nat len + M - 1 < M * q + M)%Z).
  { subst q. pose proof (Z.mul_div_le (Z.of_nat len + M - 1) M).
    pose proof (Z.mul_succ_div_gt (Z.of_nat len + M - 1) M). lia. }
  assert (Hpos : (1 <= q)%Z) by nia.
  exists (Z.to_nat (q - 1)). split; [lia|].
  replace (S (Z.to_nat (q - 1))) with (Z.to_nat q) by lia.
  rewrite <- !Z2Nat.inj_mul by lia.
  split.
  - apply Nat2Z.inj_lt. rewrite Z2Nat.id by nia. nia.
  - apply Nat2Z.inj_le. rewrite Z2Nat.id by nia. nia.
Qed.

Lemma append_slices_pieces para M chunks :
  (1 <= M)%Z ->
  append_slices para M chunks
  = Return (chunks ++ pieces (Z.to_nat M) para (slice_count (length para) M)).
Proof.
  intros HM. unfold append_slices, range.
  replace (M =? 0)%Z with false by (symmetry; apply Z.eqb_neq; lia).
  replace (0 <? M)%Z with true by (symmetry; apply Z.ltb_lt; lia).
  rewrite fold_left_append, map_map. f_equal. f_equal.
  unfold pieces, slice_count.
  assert (Hq : (0 <= (Z.of_nat (length para) + M - 1) / M)%Z)
    by (apply Z.div_pos; lia).
  rewrite Z.sub_0_r, Z.max_r by exact Hq.
  apply map_ext. intros k. unfold slice. f_equal.
  - lia.
  - f_equal. rewrite Z.add_0_l, Z2Nat.inj_mul, Nat2Z.id by lia.
    reflexivity.
Qed.

(** What one paragraph adds to the list of chunks. *)
Lemma add_paragraph_spec M para :
  (1 <= M)%Z ->
  exists g,
    (forall chunks, add_paragraph M chunks para = Return (chunks ++ g))
    /\ concat g = para
    /\ Forall (fun c => (Z.of_nat (length c) <= M)%Z) g
    /\ ((M < Z.of_nat (length para))%Z ->
        exists front last,
          g = front ++ [last]
          /\ Forall (fun c => Z.of_nat (length c) = M) front
          /\ (1 <= Z.of_nat (length last) <= M)%Z).
Proof.
  intros HM. unfold add_paragraph.
  destruct (Z.leb_spec (Z.of_nat (length para)) M) as [Hle|Hgt].
  - exists [para]. repeat split.
    + simpl. apply app_nil_r.
    + repeat constructor. exact Hle.
    + lia.
  - destruct (@slice_count_bounds (length para) M HM)
      as (n & Hn & Hlo & Hhi); [lia|].
    exists (pieces (Z.to_nat M) para (slice_count (length para) M)).
    split; [intros chunks; now apply append_slices_pieces|].
    split; [rewrite pieces_concat, Hn; now apply firstn_all2|].
    split.
    + eapply Forall_impl; [|apply pieces_bounded].
      simpl. intros c Hc. lia.
    + intros _. rewrite Hn, pieces_S.
      eexists _, _. split; [reflexivity|]. split.
      * eapply Forall_impl; [|apply pieces_full; lia].
        simpl. intros c Hc. lia.
      * rewrite length_firstn, length_skipn. lia.
Qed.

(** The whole loop: the groups of the paragraphs, one after the other. *)
Lemma for_paragraphs_spec M paras :
  (1 <= M)%Z ->
  exists groups,
    chunk_groups M paras groups
    /\ (forall chunks,
          for_paragraphs M paras chunks = Return (chunks ++ concat groups))
    /\ List.map (@List.concat char) groups = paras
    /\ Forall (fun c => (Z.of_nat (length c) <= M)%Z) (concat groups).
Proof.
  intros HM. induction paras as [|para paras IH].
  - exists []. repeat split; try constructor.
    intros chunks. simpl. now rewrite app_nil_r.
  - destruct IH as (groups & Hg & Hfor & Hcat & Hall).
    destruct (add_paragraph_spec para HM) as (g & Hadd & Hc & Hb & _).
    exists (g :: groups). repeat split.
    + constructor; [apply (Hadd [])|exact Hg].
    + intros chunks. simpl. rewrite Hadd, Hfor. now rewrite app_assoc.
    + simpl. now rewrite Hc, Hcat.
    + simpl. apply Forall_app. now split.
Qed.

(** The chunks of one paragraph, as [add_paragraph] appends them to an
    empty list: the paragraph when it fits, its slices otherwise. *)
Lemma add_paragraph_cover M para g :
  (1 <= M)%Z ->
  add_paragraph M [] para = Return g ->
  concat g = para
  /\ ((Z.of_nat (length para) <= M)%Z -> g = [para])
  /\ ((M < Z.of_nat (length para))%Z ->
      (forall k, k < length g ->
         nth k g [] = slice para (k * Z.to_nat M) ((k + 1) * Z.to_nat M))
      /\ exists front last,
           g = front ++ [last]
           /\ Forall (fun c => Z.of_nat (length c) = M) front
           /\ (1 <= Z.of_nat (length last) <= M)%Z).
Proof.
  intros HM Hg.
  destruct (add_paragraph_spec para HM) as (g' & Hadd & Hc & _ & Hsl).
  rewrite Hadd in Hg. injection Hg as Hg. cbn [app] in Hg. subst g'.
  split; [exact Hc|]. split.
  - intros Hle. specialize (Hadd []). unfold add_paragraph in Hadd.
    replace (Z.of_nat (length para) <=? M)%Z with true in Hadd
      by (symmetry; apply Z.leb_le; exact Hle).
    now injection Hadd as <-.
  - intros Hlong. split; [|exact (Hsl Hlong)].
    specialize (Hadd []). unfold add_paragraph in Hadd.
    replace (Z.of_nat (length para) <=? M)%Z with false in Hadd
      by (symmetry; apply Z.leb_gt; exact Hlong).
    rewrite append_slices_pieces in Hadd by exact HM.
    injection Hadd as Hg. cbn [app] in Hg. rewrite <- Hg.
    unfold pieces. intros k. rewrite length_map, length_seq. intros Hk.
    rewrite (nth_indep _ [] (firstn (Z.to_nat M)
                               (skipn (0 * Z.to_nat M) para)))
      by now rewrite length_map, length_seq.
    rewrite (map_nth (fun k => firstn (Z.to_nat M)
                                 (skipn (k * Z.to_nat M) para))).
    rewrite seq_nth by exact Hk. unfold slice. simpl.
    f_equal. lia.
Qed.

(** C1: for every text and every maximum [M >= 1], [_get_text_chunks]
    returns the chunks of the paragraphs of the text, paragraph after
    paragraph, each chunk of length at most [M] (3000 by default).  A
    paragraph that fits is one chunk.  A paragraph longer than [M] is
    covered by its consecutive slices [para[k*M:(k+1)*M]]: joined they
    are the paragraph, each has length [M] but the last, which has
    between 1 and [M] characters. *)
Theorem get_text_chunks_bounded (text : str) (M : Z) (HM : (1 <= M)%Z) :
  exists groups,
    _get_text_chunks text M = Return (concat groups)
    /\ Forall (fun c => (Z.of_nat (length c) <= M)%Z) (concat groups)
    /\ Forall2
         (fun para g =>
            concat g = para
            /\ ((Z.of_nat (length para) <= M)%Z -> g = [para])
            /\ ((M < Z.of_nat (length para))%Z ->
                (forall k, k < length g ->
                   nth k g []
                   = slice para (k * Z.to_nat M) ((k + 1) * Z.to_nat M))
                /\ exists front last,
                     g = front ++ [last]
                     /\ Forall (fun c => Z.of_nat (length c) = M) front
                     /\ (1 <= Z.of_nat (length last) <= M)%Z))
         (paragraphs text) groups
    /\ default_max_chunk_size = 3000%Z.
Proof.
  destruct (for_paragraphs_spec (paragraphs text) HM)
    as (groups & Hg & Hfor & _ & Hall).
  exists groups. split; [apply (Hfor [])|]. split; [exact Hall|].
  split; [|reflexivity].
  unfold chunk_groups in Hg. clear Hfor Hall.
  induction Hg as [|para g paras groups Hpara _ IH]; constructor.
  - now apply add_paragraph_cover.
  - exact IH.
Qed.

(** At [M = 2] on a text of two paragraphs, one of them long. *)
Lemma get_text_chunks_bounded_witness :
  (1 <= 2)%Z
  /\ exists groups,
       _get_text_chunks (lit "ab
cdefg") 2 = Return (concat groups)
       /\ Forall (fun c => (Z.of_nat (length c) <= 2)%Z) (concat groups)
       /\ Forall2
            (fun para g =>
               concat g = para
               /\ ((Z.of_nat (length para) <= 2)%Z -> g = [para])
               /\ ((2 < Z.of_nat (length para))%Z ->
                   (forall k, k < length g ->
                      nth k g []
                      = slice para (k * Z.to_nat 2) ((k + 1) * Z.to_nat 2))
                   /\ exists front last,
                        g = front ++ [last]
                        /\ Forall (fun c => Z.of_nat (length c) = 2%Z) front
                        /\ (1 <= Z.of_nat (length last) <= 2)%Z))
            (paragraphs (lit "ab
cdefg")) groups
       /\ default_max_chunk_size = 3000%Z.
Proof.
  split; [lia|].
  exact (@get_text_chunks_bounded (lit "ab
cdefg") 2 ltac:(lia)).
Defined.

Example get_text_chunks_bounded_demo :
  _get_text_chunks (lit "ab
cdefg") 2 = Return [lit "ab"; lit "cd"; lit "ef"; lit "g"].
Proof. vm_compute. reflexivity. Qed.

(** ** Putting the chunks back together *)

Lemma split_nonempty sep s : split sep s <> [].
Proof.
  destruct s as [|c s]; simpl; [discriminate|].
  destruct (N.eqb c sep); [discriminate|].
  destruct (split sep s); discriminate.
Qed.

Lemma join_cons sep p rest :
  rest <> [] -> join sep (p :: rest) = p ++ sep ++ join sep rest.
Proof. destruct rest; [congruence|reflexivity]. Qed.

(** [sep.join(s.split(sep)) == s]. *)
Lemma join_split sep s : join [sep] (split sep s) = s.
Proof.
  induction s as [|c s IH]; [reflexivity|]. simpl.
  pose proof (split_nonempty sep s) as Hne.
  destruct (N.eqb_spec c sep) as [->|Hc].
  - rewrite join_cons by exact Hne. simpl. now rewrite IH.
  - destruct (split sep s) as [|piece rest]; [congruence|].
    destruct rest as [|q rest]; simpl in *; now rewrite <- IH.
Qed.

(** Lines that are neither blank nor padded are the paragraphs. *)
Lemma paragraphs_clean text :
  Forall (fun p => p <> [] /\ strip p = p) (split NL text) ->
  paragraphs text = split NL text.
Proof.
  unfold paragraphs. induction 1 as [|p ps [Hne Hp] _ IH]; simpl.
  - reflexivity.
  - rewrite Hp. destruct p as [|c p]; [congruence|]. simpl.
    now rewrite Hp, IH.
Qed.

(** C9, as stated, fails: the text [" a"] gives the one chunk ["a"],
    and the chunks put back together are ["a"], not the text: the
    blank that [strip] removed is lost and it is no separator. *)
Lemma chunks_lose_whitespace :
  exists groups,
    chunk_groups 3000 (paragraphs (lit " a")) groups
    /\ _get_text_chunks (lit " a") 3000 = Return (concat groups)
    /\ reassemble groups = lit "a"
    /\ reassemble groups <> lit " a".
Proof.
  exists [[lit "a"]]. split; [|split; [|split]].
  - vm_compute. repeat constructor.
  - vm_compute. reflexivity.
  - vm_compute. reflexivity.
  - vm_compute. discriminate.
Qed.

(** C9, amended: for every text and every [M >= 1], the chunks of
    [_get_text_chunks], concatenated with one separator put back between
    the chunks of different paragraphs, give the lines of the text that
    are not blank, each stripped of the white space around it, joined by
    single newlines; they give the text itself when no line of it is
    empty or has white space at either end. *)
Theorem chunks_reassemble (text : str) (M : Z) (HM : (1 <= M)%Z) :
  exists groups,
    chunk_groups M (paragraphs text) groups
    /\ _get_text_chunks text M = Return (concat groups)
    /\ reassemble groups = join [NL] (paragraphs text)
    /\ (Forall (fun p => p <> [] /\ strip p = p) (split NL text) ->
        reassemble groups = text).
Proof.
  destruct (for_paragraphs_spec (paragraphs text) HM)
    as (groups & Hg & Hfor & Hcat & _).
  exists groups. split; [exact Hg|]. split; [apply (Hfor [])|].
  unfold reassemble. rewrite Hcat. split; [reflexivity|].
  intros Hclean. rewrite (paragraphs_clean _ Hclean). apply join_split.
Qed.

Lemma chunks_reassemble_witness :
  (1 <= 2)%Z
  /\ exists groups,
       chunk_groups 2 (paragraphs (lit "ab
cdefg")) groups
       /\ _get_text_chunks (lit "ab
cdefg") 2 = Return (concat groups)
       /\ reassemble groups = join [NL] (paragraphs (lit "ab
cdefg"))
       /\ (Forall (fun p => p <> [] /\ strip p = p) (split NL (lit "ab
cdefg")) ->
           reassemble groups = lit "ab
cdefg").
Proof.
  split; [lia|].
  apply (@chunks_reassemble (lit "ab
cdefg") 2). lia.
Defined.

(** ** The retry loop *)

Section Retry.

Variable audio : AudioLib.
Variable tts : nat -> str -> string -> attempt_outcome audio.
Variables (chunk : str) (tld : string).

(** One turn of the loop, by the outcome of its request. *)
Lemma attempt_loop_cons attempt rest delay w :
  attempt_loop tts chunk tld (attempt :: rest) delay w
  = match tts (calls w) chunk tld with
    | Decoded seg => (Return (Some seg), requested chunk tld w)
    | Failed (HTTPError status_code) =>
        if (status_code =? 429)%Z
        then attempt_loop tts chunk tld rest (delay * 2)
               (emit (Sleep delay)
                  (emit (Warning (RateLimitHit delay (attempt + 1) retries))
                     (requested chunk tld w)))
        else (Raise (HTTPError status_code), requested chunk tld w)
    | Failed e => (Raise e, requested chunk tld w)
    end.
Proof.
  cbn [attempt_loop].
  unfold except_HTTPError at 1. unfold bind at 1. unfold synthesize.
  fold (requested chunk tld w).
  destruct (tts (calls w) chunk tld) as [seg|[|status_code|name]];
    try reflexivity.
  destruct (status_code =? 429)%Z; reflexivity.
Qed.

(** One turn of the loop when the request succeeds. *)
Lemma attempt_loop_decoded attempt rest delay w seg :
  tts (calls w) chunk tld = Decoded seg ->
  attempt_loop tts chunk tld (attempt :: rest) delay w
  = (Return (Some seg),
     {| calls := S (calls w); log := log w ++ [Synthesize chunk tld] |}).
Proof.
  intros H. cbn [attempt_loop].
  unfold except_HTTPError, bind, synthesize. now rewrite H.
Qed.

(** One turn when the service answers 429: warn, wait, double the
    delay, go on with the attempts that are left. *)
Lemma attempt_loop_rate_limited attempt rest delay w :
  tts (calls w) chunk tld = Failed (HTTPError 429) ->
  attempt_loop tts chunk tld (attempt :: rest) delay w
  = attempt_loop tts chunk tld rest (delay * 2)
      {| calls := S (calls w);
         log := log w ++ [Synthesize chunk tld;
                          Warning (RateLimitHit delay (attempt + 1) retries);
                          Sleep delay] |}.
Proof.
  intros H. cbn [attempt_loop].
  unfold except_HTTPError at 1. unfold bind at 1. unfold synthesize.
  rewrite H. cbn -[attempt_loop].
  unfold bind, tell, emit. cbn -[attempt_loop].
  now rewrite <- !app_assoc.
Qed.

(** One turn when the request fails in any other way. *)
Lemma attempt_loop_failed attempt rest delay w e :
  tts (calls w) chunk tld = Failed e ->
  e <> HTTPError 429 ->
  attempt_loop tts chunk tld (attempt :: rest) delay w
  = (Raise e,
     {| calls := S (calls w); log := log w ++ [Synthesize chunk tld] |}).
Proof.
  intros H He. cbn [attempt_loop].
  unfold except_HTTPError, bind, synthesize. rewrite H.
  destruct e as [|status_code|name]; try reflexivity.
  destruct (Z.eqb_spec status_code 429) as [->|Hs]; [congruence|].
  reflexivity.
Qed.

End Retry.

(** The [except] branch by itself: were requests' [HTTPError] with
    status 429 to leave the [try] block on all three attempts, the loop
    would make exactly 3 requests, wait 5, 10 and 20 after them, and
    return [None]. *)
Theorem convert_chunk_exhausts_retries (audio : AudioLib)
  (tts : nat -> str -> string -> attempt_outcome audio)
  (chunk : str) (tld : string) (w : world)
  (H429 : forall k, k < 3 ->
            tts (calls w + k) chunk tld = Failed (HTTPError 429)) :
  _convert_chunk_to_audio tts chunk tld w
  = (Return None,
     {| calls := calls w + 3;
        log := log w ++ [Synthesize chunk tld;
                         Warning (RateLimitHit 5 1 3); Sleep 5;
                         Synthesize chunk tld;
                         Warning (RateLimitHit 10 2 3); Sleep 10;
                         Synthesize chunk tld;
                         Warning (RateLimitHit 20 3 3); Sleep 20] |}).
Proof.
  unfold _convert_chunk_to_audio, initial_delay. cbn [seq retries].
  pose proof (H429 0) as H0. pose proof (H429 1) as H1.
  pose proof (H429 2) as H2.
  rewrite Nat.add_0_r in H0.
  rewrite attempt_loop_rate_limited by (apply H0; lia).
  rewrite attempt_loop_rate_limited
    by (cbn [calls]; rewrite <- Nat.add_1_r; apply H1; lia).
  rewrite attempt_loop_rate_limited
    by (cbn [calls]; replace (S (S (calls w))) with (calls w + 2) by lia;
        apply H2; lia).
  cbn [attempt_loop calls log]. unfold ret. f_equal. f_equal; [lia|].
  rewrite <- !app_assoc. reflexivity.
Qed.

Lemma convert_chunk_exhausts_retries_witness :
  (forall k, k < 3 ->
     (fun _ _ _ => Failed (HTTPError 429) : attempt_outcome Samples)
       (calls world0 + k) (lit "A") "com"%string
     = Failed (HTTPError 429))
  /\ _convert_chunk_to_audio
       (fun _ _ _ => Failed (HTTPError 429) : attempt_outcome Samples)
       (lit "A") "com" world0
     = (Return None,
        {| calls := 3;
           log := [Synthesize (lit "A") "com";
                   Warning (RateLimitHit 5 1 3); Sleep 5;
                   Synthesize (lit "A") "com";
                   Warning (RateLimitHit 10 2 3); Sleep 10;
                   Synthesize (lit "A") "com";
                   Warning (RateLimitHit 20 3 3); Sleep 20] |}).
Proof.
  split; [reflexivity|].
  apply (@convert_chunk_exhausts_retries Samples
           (fun _ _ _ => Failed (HTTPError 429)) (lit "A") "com"%string
           world0).
  reflexivity.
Defined.

(** The [except] branch by itself: were requests' [HTTPError] with
    status 429 to leave the [try] block on the first two attempts and
    the third to succeed, the loop would make exactly 3 requests, wait
    5 before the second and 10 before the third, and return the decoded
    segment. *)
Theorem convert_chunk_succeeds_third (audio : AudioLib)
  (tts : nat -> str -> string -> attempt_outcome audio)
  (chunk : str) (tld : string) (w : world) (seg : audio)
  (H1 : tts (calls w) chunk tld = Failed (HTTPError 429))
  (H2 : tts (calls w + 1) chunk tld = Failed (HTTPError 429))
  (H3 : tts (calls w + 2) chunk tld = Decoded seg) :
  _convert_chunk_to_audio tts chunk tld w
  = (Return (Some seg),
     {| calls := calls w + 3;
        log := log w ++ [Synthesize chunk tld;
                         Warning (RateLimitHit 5 1 3); Sleep 5;
                         Synthesize chunk tld;
                         Warning (RateLimitHit 10 2 3); Sleep 10;
                         Synthesize chunk tld] |}).
Proof.
  unfold _convert_chunk_to_audio, initial_delay. cbn [seq retries].
  rewrite attempt_loop_rate_limited by exact H1.
  rewrite attempt_loop_rate_limited
    by (cbn [calls]; rewrite <- Nat.add_1_r; exact H2).
  erewrite attempt_loop_decoded
    by (cbn [calls]; replace (S (S (calls w))) with (calls w + 2) by lia;
        exact H3).
  cbn [calls log]. f_equal. f_equal; [lia|].
  rewrite <- !app_assoc. reflexivity.
Qed.

Lemma convert_chunk_succeeds_third_witness :
  _convert_chunk_to_audio
    (fun n _ _ => if n <? 2 then Failed (HTTPError 429)
                  else Decoded ([7; 8]%Z : Samples))
    (lit "A") "com" world0
  = (Return (Some [7; 8]%Z),
     {| calls := 3;
        log := [Synthesize (lit "A") "com";
                Warning (RateLimitHit 5 1 3); Sleep 5;
                Synthesize (lit "A") "com";
                Warning (RateLimitHit 10 2 3); Sleep 10;
                Synthesize (lit "A") "com"] |}).
Proof.
  apply (@convert_chunk_succeeds_third Samples
           (fun n _ _ => if n <? 2 then Failed (HTTPError 429)
                         else Decoded ([7; 8]%Z : Samples))
           (lit "A") "com"%string world0 [7; 8]%Z);
    reflexivity.
Defined.

(** C4: when an attempt at a chunk fails with an HTTP error whose
    status is not 429, [_convert_chunk_to_audio] raises that error at
    once: the failed request is the last thing it does, with no wait
    and no request after it.  The [k] attempts before it, if any, each
    met a rate limit and had their own wait. *)
Theorem convert_chunk_reraises (audio : AudioLib)
  (tts : nat -> str -> string -> attempt_outcome audio)
  (chunk : str) (tld : string) (w : world) (k : nat) (status_code : Z)
  (Hk : k < 3)
  (H429 : forall j, j < k ->
            tts (calls w + j) chunk tld = Failed (HTTPError 429))
  (Hfail : tts (calls w + k) chunk tld = Failed (HTTPError status_code))
  (Hstatus : status_code <> 429%Z) :
  _convert_chunk_to_audio tts chunk tld w
  = (Raise (HTTPError status_code),
     {| calls := calls w + k + 1;
        log := log w ++ backoff_events chunk tld k
                     ++ [Synthesize chunk tld] |}).
Proof.
  assert (Hne : HTTPError status_code <> HTTPError 429) by congruence.
  unfold _convert_chunk_to_audio, initial_delay. cbn [seq retries].
  destruct k as [|[|[|k]]]; [| | |lia].
  - rewrite Nat.add_0_r in Hfail.
    rewrite attempt_loop_failed with (e := HTTPError status_code);
      [|exact Hfail|exact Hne].
    f_equal. f_equal; lia || reflexivity.
  - pose proof (H429 0) as H0. rewrite Nat.add_0_r in H0.
    rewrite attempt_loop_rate_limited by (apply H0; lia).
    rewrite attempt_loop_failed with (e := HTTPError status_code);
      [|cbn [calls]; rewrite <- Nat.add_1_r; exact Hfail|exact Hne].
    cbn [calls log]. f_equal. f_equal; [lia|].
    rewrite <- !app_assoc. reflexivity.
  - pose proof (H429 0) as H0. rewrite Nat.add_0_r in H0.
    pose proof (H429 1) as H1.
    rewrite attempt_loop_rate_limited by (apply H0; lia).
    rewrite attempt_loop_rate_limited
      by (cbn [calls]; rewrite <- Nat.add_1_r; apply H1; lia).
    rewrite attempt_loop_failed with (e := HTTPError status_code);
      [|cbn [calls]; replace (S (S (calls w))) with (calls w + 2) by lia;
        exact Hfail|exact Hne].
    cbn [calls log]. f_equal. f_equal; [lia|].
    rewrite <- !app_assoc. reflexivity.
Qed.

Lemma convert_chunk_reraises_witness :
  _convert_chunk_to_audio
    (fun _ _ _ => Failed (HTTPError 500) : attempt_outcome Samples)
    (lit "A") "com" world0
  = (Raise (HTTPError 500),
     {| calls := 1; log := [Synthesize (lit "A") "com"] |}).
Proof.
  apply (@convert_chunk_reraises Samples
           (fun _ _ _ => Failed (HTTPError 500)) (lit "A") "com"%string
           world0 0 500%Z).
  - lia.
  - intros j Hj. lia.
  - reflexivity.
  - discriminate.
Defined.

(** C10: when [_convert_chunk_to_audio] returns a segment of length 0
    for a chunk, the loop of [convert_text_to_mp3_chunked] treats the
    chunk as failed: the segment is false in [if chunk_audio:], so the
    audiobook stays as it was, the warning about a skipped chunk is
    given and the progress bar is not moved. *)
Theorem zero_length_segment_skipped (audio : AudioLib)
  (tts : nat -> str -> string -> attempt_outcome audio) (tld : string)
  (total : nat) (combined_audio : audio) (i : nat) (chunk : str)
  (w w' : world) (seg : audio)
  (Hconv : _convert_chunk_to_audio tts chunk tld w
           = (Return (Some seg), w'))
  (Hlen : audio_len audio seg = 0) :
  truthy (Some seg) = false
  /\ process_chunk tts tld total combined_audio i chunk w
     = (Return combined_audio,
        {| calls := calls w';
           log := log w' ++ [Warning (SkippingChunk (length chunk))] |}).
Proof.
  assert (Hfalse : truthy (Some seg) = false)
    by (unfold truthy; now rewrite Hlen).
  split; [exact Hfalse|].
  unfold process_chunk. unfold bind at 1. rewrite Hconv, Hfalse.
  reflexivity.
Qed.

Lemma zero_length_segment_skipped_witness :
  let tts := fun (_ : nat) (_ : str) (_ : string) =>
               Decoded ([] : Samples) in
  _convert_chunk_to_audio tts (lit "A") "com" world0
  = (Return (Some []), World 1 [Synthesize (lit "A") "com"])
  /\ audio_len Samples [] = 0
  /\ process_chunk tts "com" 1 ([5]%Z : Samples) 0 (lit "A") world0
     = (Return [5]%Z,
        World 1 [Synthesize (lit "A") "com";
                 Warning (SkippingChunk 1)]).
Proof.
  cbv zeta. split; [reflexivity|]. split; [reflexivity|].
  exact (proj2 (@zero_length_segment_skipped Samples
                  (fun _ _ _ => Decoded ([] : Samples)) "com"%string
                  1 [5]%Z 0 (lit "A") world0
                  (World 1 [Synthesize (lit "A") "com"]) []
                  eq_refl eq_refl)).
Defined.


(** * Further properties of the splitter *)

Lemma add_paragraph_group M para chunks :
  (1 <= M)%Z ->
  add_paragraph M chunks para = Return (chunks ++ para_group M para).
Proof.
  intros HM. unfold add_paragraph, para_group.
  destruct (Z.of_nat (length para) <=? M)%Z; [reflexivity|].
  now apply append_slices_pieces.
Qed.

Lemma for_paragraphs_groups M paras :
  (1 <= M)%Z ->
  forall chunks,
    for_paragraphs M paras chunks
    = Return (chunks ++ flat_map (para_group M) paras).
Proof.
  intros HM. induction paras as [|para paras IH]; intros chunks; simpl.
  - now rewrite app_nil_r.
  - rewrite add_paragraph_group by exact HM.
    now rewrite IH, <- app_assoc.
Qed.

(** X1: for a maximum of at least 1 the result is, paragraph after
    paragraph, the paragraph itself when it fits and otherwise its
    slices [para[0:M]], [para[M:2M]], ..., as many as [len(para) / M]
    rounded up. *)
Theorem get_text_chunks_closed_form (text : str) (M : Z)
  (HM : (1 <= M)%Z) :
  _get_text_chunks text M
  = Return (flat_map (para_group M) (paragraphs text))
  /\ forall para,
       (M < Z.of_nat (length para))%Z ->
       length (para_group M para)
       = Z.to_nat ((Z.of_nat (length para) + M - 1) / M)
       /\ forall k, k < length (para_group M para) ->
            nth k (para_group M para) []
            = slice para (k * Z.to_nat M) ((k + 1) * Z.to_nat M).
Proof.
  split.
  - unfold _get_text_chunks. now rewrite for_paragraphs_groups.
  - intros para Hlong. unfold para_group.
    replace (Z.of_nat (length para) <=? M)%Z with false
      by (symmetry; apply Z.leb_gt; exact Hlong).
    unfold pieces, slice_count. rewrite length_map, length_seq.
    split; [reflexivity|]. intros k Hk.
    rewrite (nth_indep _ [] (firstn (Z.to_nat M)
                               (skipn (0 * Z.to_nat M) para)))
      by now rewrite length_map, length_seq.
    rewrite (map_nth (fun k => firstn (Z.to_nat M)
                                 (skipn (k * Z.to_nat M) para))).
    rewrite seq_nth by exact Hk. unfold slice. simpl.
    f_equal. lia.
Qed.

Lemma get_text_chunks_closed_form_witness :
  (1 <= 3)%Z
  /\ _get_text_chunks (lit "abcdefgh
ij") 3 = Return [lit "abc"; lit "def"; lit "gh"; lit "ij"].
Proof.
  split; [lia|].
  exact (proj1 (@get_text_chunks_closed_form (lit "abcdefgh
ij") 3 ltac:(lia))).
Defined.

(** ** White space, [strip] and [split] *)

Lemma lstrip_blank s :
  lstrip s = [] <-> Forall (fun c => isspace c = true) s.
Proof.
  induction s as [|c s IH]; simpl.
  - split; [constructor|reflexivity].
  - destruct (isspace c) eqn:E.
    + rewrite IH. split; [now constructor|now inversion 1].
    + split; [discriminate|]. inversion 1. congruence.
Qed.

Lemma lstrip_head s :
  lstrip s = [] \/ exists c t, lstrip s = c :: t /\ isspace c = false.
Proof.
  induction s as [|c s IH]; simpl; [now left|].
  destruct (isspace c) eqn:E; [exact IH|]. right. now eauto.
Qed.

Lemma lstrip_incl s c : In c (lstrip s) -> In c s.
Proof.
  induction s as [|d s IH]; simpl; [easy|].
  destruct (isspace d); [|easy]. intros H. right. now apply IH.
Qed.

Lemma strip_incl s c : In c (strip s) -> In c s.
Proof.
  unfold strip, rstrip. intros H.
  apply in_rev, lstrip_incl, in_rev in H. now apply lstrip_incl.
Qed.

Lemma strip_blank s :
  strip s = [] <-> Forall (fun c => isspace c = true) s.
Proof.
  unfold strip, rstrip. split.
  - intros H. apply lstrip_blank.
    destruct (lstrip_head s) as [E|(c & t & E & Hc)]; [exact E|].
    assert (Hrev : lstrip (rev (lstrip s)) = []).
    { rewrite <- (rev_involutive (lstrip (rev (lstrip s)))), H.
      reflexivity. }
    apply lstrip_blank in Hrev.
    rewrite Forall_forall in Hrev.
    specialize (Hrev c). rewrite <- in_rev, E in Hrev.
    rewrite Hrev in Hc by now left. discriminate.
  - intros H. apply lstrip_blank in H. now rewrite H.
Qed.

Lemma split_pieces_clean sep s :
  Forall (fun p => ~ In sep p) (split sep s).
Proof.
  induction s as [|c s IH]; simpl; [repeat constructor; easy|].
  destruct (N.eqb_spec c sep) as [E|Hne].
  - constructor; [easy|exact IH].
  - destruct (split sep s) as [|piece rest]; [repeat constructor|].
    + intros [H|[]]. congruence.
    + inversion IH as [|? ? Hp Hrest]; subst.
      constructor; [|exact Hrest].
      intros [H|H]; [congruence|now apply Hp].
Qed.

Lemma split_pieces_incl sep s p c :
  In p (split sep s) -> In c p -> In c s.
Proof.
  revert p. induction s as [|d s IH]; intros p; simpl.
  - intros [<-|[]] [].
  - destruct (N.eqb d sep).
    + intros [<-|H]; [intros []|]. intros Hc. right. eapply IH; eassumption.
    + destruct (split sep s) as [|piece rest] eqn:E.
      * intros [<-|[]] [->|[]]. now left.
      * intros [<-|H] Hc.
        -- destruct Hc as [->|Hc]; [now left|].
           right. apply (IH piece); [now left|exact Hc].
        -- right. apply (IH p); [now right|exact Hc].
Qed.

(** A text is white space throughout exactly when each of its lines
    is. *)
Lemma split_blank s :
  Forall (fun c => isspace c = true) s
  <-> Forall (fun p => Forall (fun c => isspace c = true) p) (split NL s).
Proof.
  induction s as [|c s IH]; simpl.
  - split; repeat constructor.
  - destruct (N.eqb_spec c NL) as [E|Hne].
    + subst c. split.
      * inversion 1; subst. constructor; [constructor|now apply IH].
      * inversion 1; subst. constructor; [reflexivity|now apply IH].
    + destruct (split NL s) as [|piece rest] eqn:E.
      * split.
        -- inversion 1; subst. repeat constructor; assumption.
        -- inversion 1 as [|? ? Hp _]; subst.
           inversion Hp; subst. constructor; [assumption|].
           apply IH. constructor.
      * split.
        -- inversion 1 as [|? ? Hc Hs]; subst.
           apply IH in Hs. inversion Hs; subst.
           constructor; [now constructor|assumption].
        -- inversion 1 as [|? ? Hp Hrest]; subst.
           inversion Hp; subst.
           constructor; [assumption|]. apply IH. now constructor.
Qed.

(** The paragraphs are not empty, hold no newline, and every character
    of them is one of the text. *)
Lemma paragraphs_proper text :
  Forall (fun para => para <> [] /\ ~ In NL para
                      /\ forall c, In c para -> In c text)
    (paragraphs text).
Proof.
  unfold paragraphs. apply Forall_forall. intros para Hin.
  apply in_map_iff in Hin. destruct Hin as (p & <- & Hp).
  apply filter_In in Hp. destruct Hp as [Hp Hne].
  split; [|split].
  - intros E. rewrite E in Hne. discriminate.
  - intros H. apply strip_incl in H.
    pose proof (split_pieces_clean NL text) as Hclean.
    rewrite Forall_forall in Hclean. now apply (Hclean p).
  - intros c Hc. apply strip_incl in Hc.
    eapply split_pieces_incl; eassumption.
Qed.

Lemma paragraphs_blank text :
  paragraphs text = [] <-> strip text = [].
Proof.
  rewrite strip_blank, split_blank. unfold paragraphs.
  induction (split NL text) as [|p ps IH]; simpl.
  - split; [constructor|reflexivity].
  - destruct (strip p) as [|c t] eqn:E; simpl.
    + rewrite IH. apply strip_blank in E.
      split; [now constructor|now inversion 1].
    + split; [discriminate|]. inversion 1 as [|? ? Hp _]; subst.
      apply strip_blank in Hp. congruence.
Qed.

Lemma in_firstn (A : Type) (n : nat) (l : list A) (x : A) :
  In x (firstn n l) -> In x l.
Proof.
  intros H. rewrite <- (firstn_skipn n l). apply in_or_app. now left.
Qed.

Lemma in_skipn (A : Type) (n : nat) (l : list A) (x : A) :
  In x (skipn n l) -> In x l.
Proof.
  intros H. rewrite <- (firstn_skipn n l). apply in_or_app. now right.
Qed.

(** The slices of a paragraph are not empty and made of its
    characters. *)
Lemma para_group_proper M para :
  (1 <= M)%Z -> para <> [] ->
  para_group M para <> []
  /\ Forall (fun c => c <> [] /\ forall x, In x c -> In x para)
       (para_group M para).
Proof.
  intros HM Hne. unfold para_group.
  destruct (Z.leb_spec (Z.of_nat (length para)) M) as [Hle|Hgt].
  - split; [discriminate|]. repeat constructor; auto.
  - destruct (@slice_count_bounds (length para) M HM)
      as (n & Hn & Hlo & Hhi); [lia|].
    rewrite Hn. split.
    + rewrite pieces_S. intros E. now apply app_eq_nil in E.
    + unfold pieces. apply Forall_map, Forall_forall.
      intros k Hk. apply in_seq in Hk. split.
      * intros E. apply (f_equal (@Datatypes.length char)) in E.
        rewrite length_firstn, length_skipn in E. simpl in E. nia.
      * intros x Hx. apply in_firstn in Hx.
        eapply in_skipn; eassumption.
Qed.

(** X2: for a maximum of at least 1 no chunk is empty, no chunk holds a
    newline, and every character of a chunk is a character of the
    text. *)
Theorem get_text_chunks_proper (text : str) (M : Z) (HM : (1 <= M)%Z) :
  exists chunks,
    _get_text_chunks text M = Return chunks
    /\ Forall (fun c => c <> [] /\ ~ In NL c
                        /\ forall x, In x c -> In x text) chunks.
Proof.
  exists (flat_map (para_group M) (paragraphs text)).
  split; [unfold _get_text_chunks; now rewrite for_paragraphs_groups|].
  apply Forall_forall. intros c Hc. apply in_flat_map in Hc.
  destruct Hc as (para & Hpara & Hc).
  pose proof (paragraphs_proper text) as Hp.
  rewrite Forall_forall in Hp.
  destruct (Hp para Hpara) as (Hne & Hnl & Hsub).
  destruct (@para_group_proper M para HM Hne) as [_ Hg].
  rewrite Forall_forall in Hg. destruct (Hg c Hc) as [Hc1 Hc2].
  repeat split; auto.
Qed.

Lemma get_text_chunks_proper_witness :
  (1 <= 3)%Z
  /\ exists chunks,
       _get_text_chunks (lit "abcdefgh

 ij ") 3 = Return chunks
       /\ Forall (fun c => c <> [] /\ ~ In NL c
                           /\ forall x, In x c -> In x (lit "abcdefgh

 ij ")) chunks.
Proof.
  split; [lia|].
  exact (@get_text_chunks_proper (lit "abcdefgh

 ij ") 3 ltac:(lia)).
Defined.

(** X3: for a maximum of at least 1 there are no chunks exactly when
    the text is blank, that is, when [text.strip()] is empty. *)
Theorem get_text_chunks_empty_iff (text : str) (M : Z) (HM : (1 <= M)%Z) :
  _get_text_chunks text M = Return [] <-> strip text = [].
Proof.
  unfold _get_text_chunks. rewrite for_paragraphs_groups by exact HM.
  rewrite <- paragraphs_blank. cbn [app]. split.
  - intros [= H].
    pose proof (paragraphs_proper text) as Hp.
    destruct (paragraphs text) as [|para paras]; [reflexivity|].
    inversion Hp as [|? ? (Hne & _) _]; subst.
    destruct (@para_group_proper M para HM Hne) as [Hg _].
    simpl in H. apply app_eq_nil in H. tauto.
  - intros ->. reflexivity.
Qed.

Lemma get_text_chunks_empty_iff_witness :
  (1 <= 3000)%Z
  /\ (_get_text_chunks (lit "
   
") 3000 = Return [] <-> strip (lit "
   
") = []).
Proof.
  split; [lia|].
  exact (@get_text_chunks_empty_iff (lit "
   
") 3000 ltac:(lia)).
Defined.

(** X4: with a maximum of 0 a blank text gives no chunks and any other
    text ends in [range]'s [ValueError]. *)
Theorem get_text_chunks_zero (text : str) :
  (strip text = [] -> _get_text_chunks text 0 = Return [])
  /\ (strip text <> [] -> _get_text_chunks text 0 = Raise ValueError).
Proof.
  rewrite <- paragraphs_blank. unfold _get_text_chunks.
  pose proof (paragraphs_proper text) as Hp.
  destruct (paragraphs text) as [|para paras].
  - split; [reflexivity|congruence].
  - split; [discriminate|]. intros _.
    inversion Hp as [|? ? (Hne & _) _]; subst.
    destruct para as [|c para]; [congruence|]. reflexivity.
Qed.

(** X5: with a negative maximum every paragraph counts as too long and
    the empty [range] gives it no slice: the result has no chunk,
    whatever the text. *)
Theorem get_text_chunks_negative (text : str) (M : Z) (HM : (M < 0)%Z) :
  _get_text_chunks text M = Return [].
Proof.
  unfold _get_text_chunks.
  assert (Hadd : forall para chunks,
             add_paragraph M chunks para = Return chunks).
  { intros para chunks. unfold add_paragraph.
    replace (Z.of_nat (length para) <=? M)%Z with false
      by (symmetry; apply Z.leb_gt; lia).
    unfold append_slices, range.
    replace (M =? 0)%Z with false by (symmetry; apply Z.eqb_neq; lia).
    replace (0 <? M)%Z with false by (symmetry; apply Z.ltb_ge; lia).
    assert (Hq : ((0 - Z.of_nat (length para) - M - 1) / - M <= 0)%Z).
    { destruct (Z.le_gt_cases 0 (0 - Z.of_nat (length para) - M - 1)).
      - rewrite Z.div_small by lia. lia.
      - apply Z.lt_le_incl, Z.div_lt_upper_bound; lia. }
    rewrite Z.max_l by exact Hq. reflexivity. }
  induction (paragraphs text) as [|para paras IH]; [reflexivity|].
  simpl. now rewrite Hadd.
Qed.

Lemma get_text_chunks_negative_witness :
  (-1 < 0)%Z /\ _get_text_chunks (lit "some text") (-1) = Return [].
Proof.
  split; [lia|].
  exact (@get_text_chunks_negative (lit "some text") (-1) ltac:(lia)).
Defined.

(** X6: when every paragraph fits the maximum, the chunks are the
    paragraphs themselves, in the order of the text: the non-blank
    lines, each stripped. *)
Theorem get_text_chunks_fitting (text : str) (M : Z)
  (Hfit : Forall (fun para => (Z.of_nat (length para) <= M)%Z)
            (paragraphs text)) :
  _get_text_chunks text M = Return (paragraphs text).
Proof.
  unfold _get_text_chunks.
  assert (H : forall chunks,
             for_paragraphs M (paragraphs text) chunks
             = Return (chunks ++ paragraphs text)).
  { induction Hfit as [|para paras Hpara _ IH]; intros chunks; simpl.
    - now rewrite app_nil_r.
    - unfold add_paragraph.
      replace (Z.of_nat (length para) <=? M)%Z with true
        by (symmetry; apply Z.leb_le; exact Hpara).
      now rewrite IH, <- app_assoc. }
  apply (H []).
Qed.

Lemma get_text_chunks_fitting_witness :
  Forall (fun para => (Z.of_nat (length para) <= 5)%Z)
    (paragraphs (lit " one
two

three "))
  /\ _get_text_chunks (lit " one
two

three ") 5 = Return [lit "one"; lit "two"; lit "three"].
Proof.
  assert (H : Forall (fun para => (Z.of_nat (length para) <= 5)%Z)
                (paragraphs (lit " one
two

three "))).
  { vm_compute. repeat constructor; discriminate. }
  split; [exact H|].
  exact (@get_text_chunks_fitting (lit " one
two

three ") 5 H).
Defined.

(** X7: the splitter after the normaliser: the normalised text is one
    paragraph, so for a maximum of at least 1 the chunks, joined with
    nothing between them, are the normalised text stripped, and every
    chunk but the last has exactly the maximum length, wherever the
    paragraphs of the source were. *)
Theorem chunks_of_clean_text (s : str) (M : Z) (HM : (1 <= M)%Z) :
  exists chunks,
    _get_text_chunks (clean_and_prepare_text s) M = Return chunks
    /\ concat chunks = strip (clean_and_prepare_text s)
    /\ forall k, k + 1 < length chunks ->
         Z.of_nat (length (nth k chunks [])) = M.
Proof.
  set (t := clean_and_prepare_text s).
  assert (Hsplit : split NL t = [t])
    by (apply split_no_sep, join_lines_no_newline).
  unfold _get_text_chunks. rewrite for_paragraphs_groups by exact HM.
  unfold paragraphs. rewrite Hsplit. cbn [List.filter app].
  destruct (strip t) as [|c p] eqn:E; cbn [length Nat.eqb negb List.map].
  - exists []. repeat split. simpl. intros k Hk. lia.
  - rewrite E. cbn [flat_map]. rewrite app_nil_r.
    eexists. split; [reflexivity|].
    destruct (add_paragraph_spec (c :: p) HM) as (g & Hadd & Hc & _ & Hsl).
    specialize (Hadd []). rewrite add_paragraph_group in Hadd by exact HM.
    injection Hadd as Hg. cbn [app] in Hg. rewrite Hg.
    split; [exact Hc|].
    destruct (Z.leb_spec (Z.of_nat (length (c :: p))) M) as [Hle|Hgt].
    + intros k Hk. exfalso. revert Hk. rewrite <- Hg. unfold para_group.
      replace (Z.of_nat (length (c :: p)) <=? M)%Z with true
        by (symmetry; apply Z.leb_le; exact Hle).
      simpl. lia.
    + destruct (Hsl Hgt) as (front & last & -> & Hfront & _).
      intros k Hk. rewrite length_app in Hk. simpl in Hk.
      rewrite app_nth1 by lia.
      rewrite Forall_forall in Hfront. apply Hfront, nth_In. lia.
Qed.

Lemma chunks_of_clean_text_witness :
  (1 <= 4)%Z
  /\ exists chunks,
       _get_text_chunks (clean_and_prepare_text (lit "ab

cd
ef")) 4 = Return chunks
       /\ concat chunks = strip (clean_and_prepare_text (lit "ab

cd
ef"))
       /\ forall k, k + 1 < length chunks ->
            Z.of_nat (length (nth k chunks [])) = 4%Z.
Proof.
  split; [lia|].
  exact (@chunks_of_clean_text (lit "ab

cd
ef") 4 ltac:(lia)).
Defined.

Example chunks_of_clean_text_demo :
  _get_text_chunks (clean_and_prepare_text (lit "ab

cd
ef")) 4 = Return [lit "ab c"; lit "d ef"].
Proof. vm_compute. reflexivity. Qed.

(** * Further properties of the normaliser *)

Lemma try_down_least rest s lo d k :
  Re.try_down rest s lo d = Some k -> lo <= k.
Proof.
  intros H. apply ReFacts.try_down_some in H.
  destruct H as (j & n & Hj & _ & ->). lia.
Qed.

(** A match of [r'\n\s*\n'] has at least two characters. *)
Lemma match_blank_lines_long s k :
  Re.match_at blank_lines s = Some k -> 2 <= k.
Proof.
  unfold blank_lines. cbn [Re.match_at Re.hi Re.lo Re.cls].
  destruct (Nat.min 1 (Re.run is_newline s) <? 1); [discriminate|].
  intros H. apply ReFacts.try_down_some in H.
  destruct H as (j & n & Hj & Hrest & ->).
  destruct (Re.run isspace (skipn j s) <? 0); [discriminate|].
  apply ReFacts.try_down_some in Hrest.
  destruct Hrest as (j' & n' & _ & Hlast & ->).
  destruct (Nat.min 1 (Re.run is_newline (skipn j' (skipn j s))) <? 1);
    [discriminate|].
  apply try_down_least in Hlast. lia.
Qed.

Section SubFacts.

Variable pat : Re.pattern.
Variable repl : str.

(** [re.sub] does not lengthen a string when no match is shorter than
    the replacement. *)
Lemma sub_length :
  (forall s k, Re.match_at pat s = Some k -> length repl <= k <= length s) ->
  forall s, length (Re.sub pat repl s) <= length s.
Proof.
  intros Hpat. induction s as [s IH] using length_ind.
  destruct s as [|c s]; [simpl; lia|].
  rewrite ReFacts.sub_cons.
  destruct (Re.match_at pat (c :: s)) as [[|k]|] eqn:E.
  - simpl. specialize (IH s). simpl in IH. lia.
  - destruct (Hpat _ _ E) as [Hr Hk].
    rewrite length_app.
    assert (Hrec : length (Re.sub pat repl (skipn (S k) (c :: s)))
                   <= length (skipn (S k) (c :: s)))
      by (apply IH; rewrite length_skipn; simpl in *; lia).
    rewrite length_skipn in Hrec. lia.
  - simpl. specialize (IH s). simpl in IH. lia.
Qed.

(** [re.sub] keeps the characters that [keep] selects when neither a
    match nor the replacement holds one. *)
Lemma sub_filter (keep : char -> bool) :
  (forall s k, Re.match_at pat s = Some k ->
     k <= length s /\ Forall (fun c => keep c = false) (firstn k s)) ->
  Forall (fun c => keep c = false) repl ->
  forall s, List.filter keep (Re.sub pat repl s) = List.filter keep s.
Proof.
  intros Hpat Hrepl.
  assert (Hnone : forall w, Forall (fun c => keep c = false) w ->
                            List.filter keep w = []).
  { induction 1 as [|c w Hc _ IH]; simpl; [reflexivity|].
    now rewrite Hc. }
  induction s as [s IH] using length_ind.
  destruct s as [|c s]; [reflexivity|].
  rewrite ReFacts.sub_cons.
  destruct (Re.match_at pat (c :: s)) as [[|k]|] eqn:E.
  - simpl. now rewrite IH by (simpl; lia).
  - destruct (Hpat _ _ E) as [Hk Hall].
    rewrite filter_app, (Hnone _ Hrepl). cbn [app].
    rewrite IH by (rewrite length_skipn; simpl in *; lia).
    rewrite <- (firstn_skipn (S k) (c :: s)) at 2.
    now rewrite filter_app, (Hnone _ Hall).
  - simpl. now rewrite IH by (simpl; lia).
Qed.

End SubFacts.

Lemma match_decoration_run_inside s k :
  Re.match_at decoration_run s = Some k ->
  k <= length s /\ Forall (fun c => is_decoration c = true) (firstn k s).
Proof.
  apply ReFacts.match_at_inside.
  intros it c [<-|[]] H. exact H.
Qed.

Lemma match_blank_lines_inside s k :
  Re.match_at blank_lines s = Some k ->
  k <= length s /\ Forall (fun c => isspace c = true) (firstn k s).
Proof.
  apply ReFacts.match_at_inside.
  intros it c [<-|[<-|[<-|[]]]]; simpl; auto using newline_is_space.
Qed.

(** X8: the normaliser never lengthens a text. *)
Theorem clean_and_prepare_text_shorter (s : str) :
  length (clean_and_prepare_text s) <= length s.
Proof.
  unfold clean_and_prepare_text, join_lines, replace.
  rewrite length_map.
  transitivity (length (remove_decorations s)).
  - apply sub_length. intros t k H.
    pose proof (match_blank_lines_long _ H).
    destruct (match_blank_lines_inside _ H) as [Hk _]. simpl. lia.
  - apply sub_length. intros t k H.
    destruct (match_decoration_run_inside _ H) as [Hk _]. simpl. lia.
Qed.

(** X9: the normaliser removes or changes only white space and
    characters of [[-=_*]]: the other characters of the text are the
    other characters of the result, in the same order. *)
Theorem clean_and_prepare_text_keeps_content (s : str) :
  List.filter is_content (clean_and_prepare_text s)
  = List.filter is_content s.
Proof.
  unfold clean_and_prepare_text.
  transitivity (List.filter is_content
                  (collapse_blank_lines (remove_decorations s))).
  { unfold join_lines, replace.
    induction (collapse_blank_lines (remove_decorations s)) as [|c t IH];
      [reflexivity|].
    simpl. destruct (N.eqb_spec c NL) as [E|Hne].
    - subst c. cbn. exact IH.
    - now rewrite IH. }
  transitivity (List.filter is_content (remove_decorations s)).
  - apply sub_filter.
    + intros t k H. destruct (match_blank_lines_inside _ H) as [Hk Hall].
      split; [exact Hk|]. eapply Forall_impl; [|exact Hall].
      intros c Hc. unfold is_content. rewrite Hc. apply andb_false_r.
    + repeat constructor.
  - apply sub_filter.
    + intros t k H. destruct (match_decoration_run_inside _ H) as [Hk Hall].
      split; [exact Hk|]. eapply Forall_impl; [|exact Hall].
      intros c Hc. unfold is_content. now rewrite Hc.
    + constructor.
Qed.

Lemma short_runs_everywhere s :
  forall n, short_runs n s = true ->
  forall k, Re.run is_decoration (skipn k s) < 3.
Proof.
  induction s as [|c s IH]; intros n Hs k.
  - destruct k; simpl; lia.
  - destruct k as [|k].
    + destruct (short_runs_bound _ _ Hs); simpl skipn; lia.
    + simpl in Hs. simpl skipn. destruct (is_decoration c).
      * apply andb_prop in Hs. now apply (IH (S n)).
      * now apply (IH 0).
Qed.

Lemma everywhere_short_runs s :
  (forall k, Re.run is_decoration (skipn k s) < 3) ->
  forall n, n = 0 \/ n + Re.run is_decoration s < 3 ->
  short_runs n s = true.
Proof.
  induction s as [|c s IH]; intros H n Hn; [reflexivity|].
  pose proof (H 0) as H0. simpl in H0, Hn |- *.
  assert (Hs : forall k, Re.run is_decoration (skipn k s) < 3)
    by (intros k; apply (H (S k))).
  destruct (is_decoration c).
  - apply andb_true_intro. split; [apply Nat.ltb_lt; lia|].
    apply IH; [exact Hs|lia].
  - apply IH; [exact Hs|now left].
Qed.

Lemma clean_short_runs s k :
  Re.run is_decoration (skipn k (clean_and_prepare_text s)) < 3.
Proof.
  apply (@short_runs_everywhere _ 0).
  unfold clean_and_prepare_text. rewrite join_lines_short.
  apply collapse_blank_lines_short, remove_decorations_short.
  now left.
Qed.

(** X10: in the result of the normaliser no three characters of
    [[-=_*]] stand in a row, at any position. *)
Theorem clean_and_prepare_text_no_long_run (s : str) (k : nat) :
  Re.run is_decoration (skipn k (clean_and_prepare_text s)) < 3
  /\ ~ (exists a b c rest,
          skipn k (clean_and_prepare_text s) = a :: b :: c :: rest
          /\ is_decoration a = true /\ is_decoration b = true
          /\ is_decoration c = true).
Proof.
  pose proof (clean_short_runs s k) as H. split; [exact H|].
  intros (a & b & c & rest & E & Ha & Hb & Hc).
  rewrite E in H. simpl in H. rewrite Ha, Hb, Hc in H. lia.
Qed.

(** X11: the texts that the normaliser leaves as they are are exactly
    those without a newline and without three characters of [[-=_*]] in
    a row. *)
Theorem clean_and_prepare_text_fixed_iff (s : str) :
  clean_and_prepare_text s = s
  <-> ~ In NL s /\ forall k, Re.run is_decoration (skipn k s) < 3.
Proof.
  split.
  - intros E. split.
    + rewrite <- E. apply join_lines_no_newline.
    + intros k. rewrite <- E. apply clean_short_runs.
  - intros [Hnl Hruns]. unfold clean_and_prepare_text.
    rewrite (@remove_decorations_fixed s 0)
      by (apply everywhere_short_runs; [exact Hruns|now left]).
    rewrite (collapse_blank_lines_fixed _ Hnl).
    apply (join_lines_fixed _ Hnl).
Qed.

(** * Further properties of the retry loop *)

Section RetryMore.

Variable audio : AudioLib.
Variable tts : nat -> str -> string -> attempt_outcome audio.
Variables (chunk : str) (tld : string).

(** The loop after [k] attempts in a row that met a rate limit. *)
Lemma attempt_loop_backoff k :
  forall first w,
    (forall j, j < k ->
       tts (calls w + j) chunk tld = Failed (HTTPError 429)) ->
    forall tail delay,
      attempt_loop tts chunk tld
        (List.map (fun i => first + i) (seq 0 k) ++ tail) delay w
      = attempt_loop tts chunk tld tail (delay * 2 ^ Z.of_nat k)
          {| calls := calls w + k;
             log := log w
                    ++ flat_map
                         (fun i =>
                            [Synthesize chunk tld;
                             Warning (RateLimitHit (delay * 2 ^ Z.of_nat i)
                                        (first + i + 1) retries);
                             Sleep (delay * 2 ^ Z.of_nat i)])
                         (seq 0 k) |}.
Proof.
  induction k as [|k IH]; intros first w H429 tail delay.
  - cbn. rewrite Z.mul_1_r, Nat.add_0_r, app_nil_r. now destruct w.
  - rewrite seq_S, map_app, flat_map_app, <- app_assoc. cbn [List.map app].
    rewrite (@IH first w) by (intros j Hj; apply H429; lia).
    rewrite attempt_loop_rate_limited
      by (cbn [calls]; apply H429; lia).
    cbn [calls log flat_map Nat.add]. f_equal.
    + rewrite Nat2Z.inj_succ, Z.pow_succ_r by lia. lia.
    + f_equal; [lia|]. now rewrite app_nil_r, <- app_assoc.
Qed.

Lemma convert_after_backoff k w :
  k <= 3 ->
  (forall j, j < k ->
     tts (calls w + j) chunk tld = Failed (HTTPError 429)) ->
  _convert_chunk_to_audio tts chunk tld w
  = attempt_loop tts chunk tld (seq k (3 - k)) (5 * 2 ^ Z.of_nat k)
      {| calls := calls w + k;
         log := log w ++ backoff_events chunk tld k |}.
Proof.
  intros Hk H429. unfold _convert_chunk_to_audio, initial_delay, retries.
  replace 3 with (k + (3 - k)) at 1 by lia.
  rewrite seq_app. cbn [Nat.add].
  rewrite <- (map_id (seq 0 k)) at 1.
  rewrite (map_ext (fun i => i) (fun i => 0 + i)) by reflexivity.
  now rewrite (@attempt_loop_backoff k 0 w H429).
Qed.

(** Either all three requests meet a rate limit or there is a first
    one that does not. *)
Lemma first_other_outcome w :
  (forall j, j < 3 ->
     tts (calls w + j) chunk tld = Failed (HTTPError 429))
  \/ exists k, k < 3
       /\ (forall j, j < k ->
             tts (calls w + j) chunk tld = Failed (HTTPError 429))
       /\ tts (calls w + k) chunk tld <> Failed (HTTPError 429).
Proof.
  assert (Hdec : forall o : attempt_outcome audio,
             o = Failed (HTTPError 429) \/ o <> Failed (HTTPError 429)).
  { intros [seg|[|status_code|name]]; try (right; discriminate).
    destruct (Z.eq_dec status_code 429) as [->|Hne]; [now left|].
    right. congruence. }
  destruct (Hdec (tts (calls w + 0) chunk tld)) as [H0|H0];
    [|right; exists 0; repeat split; [lia|intros j Hj; lia|exact H0]].
  destruct (Hdec (tts (calls w + 1) chunk tld)) as [H1|H1].
  2:{ right. exists 1. repeat split; [lia| |exact H1].
      intros j Hj. now replace j with 0 by lia. }
  destruct (Hdec (tts (calls w + 2) chunk tld)) as [H2|H2].
  2:{ right. exists 2. repeat split; [lia| |exact H2].
      intros j Hj. destruct j as [|[|j]]; [assumption|assumption|lia]. }
  left. intros j Hj. destruct j as [|[|[|j]]]; try assumption. lia.
Qed.

(** What a conversion is, by the first request that does not meet a
    rate limit. *)
Lemma convert_by_first_other k w :
  k < 3 ->
  (forall j, j < k ->
     tts (calls w + j) chunk tld = Failed (HTTPError 429)) ->
  tts (calls w + k) chunk tld <> Failed (HTTPError 429) ->
  _convert_chunk_to_audio tts chunk tld w
  = (match tts (calls w + k) chunk tld with
     | Decoded seg => Return (Some seg)
     | Failed e => Raise e
     end,
     {| calls := calls w + k + 1;
        log := log w ++ backoff_events chunk tld k
                     ++ [Synthesize chunk tld] |}).
Proof.
  intros Hk H429 Hother.
  rewrite (@convert_after_backoff k w) by (lia || exact H429).
  replace (3 - k) with (S (2 - k)) by lia. cbn [seq].
  destruct (tts (calls w + k) chunk tld) as [seg|e] eqn:E.
  - rewrite attempt_loop_decoded with (seg := seg) by exact E.
    cbn [calls log]. f_equal. f_equal; [lia|now rewrite <- app_assoc].
  - rewrite attempt_loop_failed with (e := e) by (exact E || congruence).
    cbn [calls log]. f_equal. f_equal; [lia|now rewrite <- app_assoc].
Qed.

End RetryMore.

(** X13: a failure that is not an HTTP error, such as an error of the
    speech library itself, is not caught by the [except] clause: it
    leaves the conversion at once, after the [k] rate-limited attempts
    before it, with no warning, no wait and no further request. *)
Theorem convert_chunk_propagates_other (audio : AudioLib)
  (tts : nat -> str -> string -> attempt_outcome audio)
  (chunk : str) (tld : string) (w : world) (k : nat) (e : exn)
  (Hk : k < 3)
  (H429 : forall j, j < k ->
            tts (calls w + j) chunk tld = Failed (HTTPError 429))
  (Hfail : tts (calls w + k) chunk tld = Failed e)
  (He : forall status_code, e <> HTTPError status_code) :
  _convert_chunk_to_audio tts chunk tld w
  = (Raise e,
     {| calls := calls w + k + 1;
        log := log w ++ backoff_events chunk tld k
                     ++ [Synthesize chunk tld] |}).
Proof.
  rewrite (@convert_by_first_other audio tts chunk tld k w Hk H429)
    by (rewrite Hfail; intros [= E]; now apply (He 429%Z)).
  now rewrite Hfail.
Qed.

Lemma convert_chunk_propagates_other_witness :
  _convert_chunk_to_audio
    (fun _ _ _ => Failed (OtherError "gTTSError") : attempt_outcome Samples)
    (lit "A") "com" world0
  = (Raise (OtherError "gTTSError"),
     {| calls := 1; log := [Synthesize (lit "A") "com"] |}).
Proof.
  refine (@convert_chunk_propagates_other Samples
            (fun _ _ _ => Failed (OtherError "gTTSError"))
            (lit "A") "com"%string world0 0 (OtherError "gTTSError")
            _ _ _ _).
  - lia.
  - intros j Hj. lia.
  - reflexivity.
  - discriminate.
Defined.

(** X14: whatever the service answers, one conversion makes at least
    one and at most three requests, only adds to the log, and sleeps 35
    seconds at most. *)
Theorem convert_chunk_bounded (audio : AudioLib)
  (tts : nat -> str -> string -> attempt_outcome audio)
  (chunk : str) (tld : string) (w : world) :
  let w' := snd (_convert_chunk_to_audio tts chunk tld w) in
  calls w + 1 <= calls w' <= calls w + 3
  /\ exists l, log w' = log w ++ l /\ (0 <= slept l <= 35)%Z.
Proof.
  cbv zeta.
  destruct (@first_other_outcome audio tts chunk tld w)
    as [H429|(k & Hk & H429 & Hother)].
  - rewrite (@convert_after_backoff audio tts chunk tld 3 w) by (lia || auto).
    cbn [Nat.sub seq attempt_loop ret snd calls log].
    split; [lia|]. eexists. split; [reflexivity|]. cbn. lia.
  - rewrite (@convert_by_first_other audio tts chunk tld k w Hk H429 Hother).
    cbn [snd calls log]. split; [lia|].
    eexists. split; [reflexivity|].
    destruct k as [|[|[|k]]]; cbn; lia.
Qed.

(** * Further properties of the assembly *)

Section AssemblyMore.

Variable audio : AudioLib.
Variable tts : nat -> str -> string -> attempt_outcome audio.
Variable tld : string.

(** One turn of the loop over the chunks, by what the conversion
    gives. *)
Lemma process_chunk_cases total combined_audio i chunk w :
  process_chunk tts tld total combined_audio i chunk w
  = match _convert_chunk_to_audio tts chunk tld w with
    | (Return (Some seg), w1) =>
        if Nat.eqb (audio_len audio seg) 0
        then (Return combined_audio,
              emit (Warning (SkippingChunk (length chunk))) w1)
        else (Return (audio_add audio combined_audio seg),
              emit (Progress (i + 1) total) w1)
    | (Return None, w1) =>
        (Return combined_audio,
         emit (Warning (SkippingChunk (length chunk))) w1)
    | (Raise e, w1) => (Raise e, w1)
    end.
Proof.
  unfold process_chunk. unfold bind at 1.
  destruct (_convert_chunk_to_audio tts chunk tld w) as [[[seg|]|e] w1];
    try reflexivity.
  unfold truthy. destruct (audio_len audio seg =? 0); reflexivity.
Qed.

Lemma for_chunks_cons total combined_audio i chunk rest w :
  for_chunks tts tld total combined_audio i (chunk :: rest) w
  = match process_chunk tts tld total combined_audio i chunk w with
    | (Return combined_audio', w1) =>
        for_chunks tts tld total combined_audio' (S i) rest w1
    | (Raise e, w1) => (Raise e, w1)
    end.
Proof. reflexivity. Qed.

Lemma convert_requests chunk w :
  calls w + 1 <= calls (snd (_convert_chunk_to_audio tts chunk tld w))
  <= calls w + 3.
Proof.
  destruct (@first_other_outcome audio tts chunk tld w)
    as [H429|(k & Hk & H429 & Hother)].
  - rewrite (@convert_after_backoff audio tts chunk tld 3 w) by (lia || auto).
    cbn [Nat.sub seq attempt_loop ret snd calls]. lia.
  - rewrite (@convert_by_first_other audio tts chunk tld k w Hk H429 Hother).
    cbn [snd calls]. lia.
Qed.

Lemma process_chunk_requests total combined_audio i chunk w :
  calls w + 1
  <= calls (snd (process_chunk tts tld total combined_audio i chunk w))
  <= calls w + 3.
Proof.
  rewrite process_chunk_cases.
  pose proof (convert_requests chunk w) as H.
  destruct (_convert_chunk_to_audio tts chunk tld w) as [[[seg|]|e] w1];
    try exact H.
  destruct (audio_len audio seg =? 0); exact H.
Qed.

Lemma for_chunks_requests total text_chunks :
  forall combined_audio i w,
    calls (snd (for_chunks tts tld total combined_audio i text_chunks w))
    <= calls w + 3 * length text_chunks.
Proof.
  induction text_chunks as [|chunk rest IH]; intros combined_audio i w.
  - simpl. lia.
  - rewrite for_chunks_cons.
    pose proof (process_chunk_requests total combined_audio i chunk w) as H.
    destruct (process_chunk tts tld total combined_audio i chunk w)
      as [[a|e] w1]; cbn [snd] in H.
    + specialize (IH a (S i) w1). simpl length. lia.
    + simpl. lia.
Qed.

(** The loop over a list in two parts. *)
Lemma for_chunks_app total pre post :
  forall combined_audio i w,
    for_chunks tts tld total combined_audio i (pre ++ post) w
    = match for_chunks tts tld total combined_audio i pre w with
      | (Return combined_audio', w1) =>
          for_chunks tts tld total combined_audio' (i + length pre) post w1
      | (Raise e, w1) => (Raise e, w1)
      end.
Proof.
  induction pre as [|chunk pre IH]; intros combined_audio i w.
  - simpl. now rewrite Nat.add_0_r.
  - cbn [app]. rewrite !for_chunks_cons.
    destruct (process_chunk tts tld total combined_audio i chunk w)
      as [[a|e] w1]; [|reflexivity].
    rewrite IH. simpl length.
    now replace (S i + length pre) with (i + S (length pre)) by lia.
Qed.

End AssemblyMore.

Lemma default_chunks text :
  exists text_chunks,
    _get_text_chunks text default_max_chunk_size = Return text_chunks
    /\ (text_chunks = [] <-> strip text = []).
Proof.
  assert (HM : (1 <= default_max_chunk_size)%Z)
    by (unfold default_max_chunk_size; lia).
  exists (flat_map (para_group default_max_chunk_size) (paragraphs text)).
  assert (E : _get_text_chunks text default_max_chunk_size
              = Return (flat_map (para_group default_max_chunk_size)
                          (paragraphs text)))
    by (unfold _get_text_chunks; now rewrite for_paragraphs_groups).
  split; [exact E|].
  rewrite <- paragraphs_blank. split.
  - intros H.
    pose proof (paragraphs_proper text) as Hp.
    destruct (paragraphs text) as [|para paras]; [reflexivity|].
    inversion Hp as [|? ? (Hne & _) _]; subst.
    destruct (@para_group_proper default_max_chunk_size para HM Hne)
      as [Hg _].
    simpl in H. apply app_eq_nil in H. tauto.
  - intros ->. reflexivity.
Qed.

(** X16: on a blank text [convert_text_to_mp3_chunked] returns [None]
    at once, with no request, no progress bar and no warning; on any
    other text it never returns [None]: it returns an audio stream or
    raises. *)
Theorem convert_text_none_iff_blank (audio : AudioLib)
  (tts : nat -> str -> string -> attempt_outcome audio)
  (text : str) (tld : string) (w : world) :
  (strip text = [] ->
   convert_text_to_mp3_chunked tts text tld w = (Return None, w))
  /\ (strip text <> [] ->
      fst (convert_text_to_mp3_chunked tts text tld w) <> Return None).
Proof.
  unfold convert_text_to_mp3_chunked. split.
  - intros ->. reflexivity.
  - intros Hne. destruct (strip text) as [|c t]; [congruence|].
    cbn [length Nat.eqb].
    destruct (_get_text_chunks text default_max_chunk_size)
      as [text_chunks|e]; [|discriminate].
    unfold bind.
    destruct (assemble tts text_chunks tld w) as [[a|e] w1];
      discriminate.
Qed.

(** X19: when the conversion of a chunk raises, the loop over the
    chunks ends there with that error: the audio gathered from the
    chunks before is dropped and nothing is asked, warned or shown for
    the chunks after it. *)
Theorem for_chunks_stops_at_error (audio : AudioLib)
  (tts : nat -> str -> string -> attempt_outcome audio) (tld : string)
  (total : nat) (combined_audio gathered : audio) (i : nat)
  (pre post : list str) (chunk : str) (w w1 w2 : world) (e : exn)
  (Hpre : for_chunks tts tld total combined_audio i pre w
          = (Return gathered, w1))
  (Hraise : _convert_chunk_to_audio tts chunk tld w1 = (Raise e, w2)) :
  for_chunks tts tld total combined_audio i (pre ++ chunk :: post) w
  = (Raise e, w2).
Proof.
  rewrite for_chunks_app, Hpre, for_chunks_cons, process_chunk_cases.
  now rewrite Hraise.
Qed.

Lemma for_chunks_stops_at_error_witness :
  for_chunks tts_down_at_second "com" 3 ([] : Samples) 0
    [lit "A"; lit "B"; lit "C"] world0
  = (Raise (HTTPError 503),
     World 2 [Synthesize (lit "A") "com"; Progress 1 3;
              Synthesize (lit "B") "com"]).
Proof.
  apply (@for_chunks_stops_at_error Samples tts_down_at_second
           "com"%string 3 [] [65%Z] 0 [lit "A"] [lit "C"] (lit "B")
           world0
           (World 1 [Synthesize (lit "A") "com"; Progress 1 3]));
    reflexivity.
Defined.

(** X20: whatever the service answers, a run of
    [convert_text_to_mp3_chunked] makes at most three requests for each
    chunk of the text. *)
Theorem convert_text_requests_bounded (audio : AudioLib)
  (tts : nat -> str -> string -> attempt_outcome audio)
  (text : str) (tld : string) (w : world) :
  exists text_chunks,
    _get_text_chunks text default_max_chunk_size = Return text_chunks
    /\ calls (snd (convert_text_to_mp3_chunked tts text tld w))
       <= calls w + 3 * length text_chunks.
Proof.
  destruct (default_chunks text) as (text_chunks & Hchunks & _).
  exists text_chunks. split; [exact Hchunks|].
  unfold convert_text_to_mp3_chunked.
  destruct (length (strip text) =? 0); [simpl; lia|].
  rewrite Hchunks. unfold bind at 1. unfold assemble, bind, tell.
  pose proof (@for_chunks_requests audio tts tld (length text_chunks)
                text_chunks (audio_empty audio) 0 (emit ProgressStart w))
    as H.
  destruct (for_chunks tts tld (length text_chunks) (audio_empty audio) 0
              text_chunks (emit ProgressStart w)) as [[a|e] w1];
    exact H.
Qed.


(** * The text of the shareholder letters *)

Example letters_text_demo :
  letters_text [(1977%Z, lit "a
b"); (1978%Z, lit "c")]
  = lit "

--- Berkshire Hathaway Shareholder Letter: 1977 ---

a b

--- Berkshire Hathaway Shareholder Letter: 1978 ---

c".
Proof. vm_compute. reflexivity. Qed.

Lemma split_app sep a b :
  split sep (a ++ sep :: b) = split sep a ++ split sep b.
Proof.
  induction a as [|c a IH]; simpl.
  - now rewrite N.eqb_refl.
  - destruct (N.eqb c sep); [now rewrite IH|].
    rewrite IH. pose proof (split_nonempty sep a) as Hne.
    destruct (split sep a) as [|piece rest]; [congruence|reflexivity].
Qed.

Lemma paragraphs_app a b :
  paragraphs (a ++ NL :: b) = paragraphs a ++ paragraphs b.
Proof.
  unfold paragraphs. now rewrite split_app, filter_app, map_app.
Qed.

(** A line that holds no newline and has no white space at its ends is
    its own single paragraph. *)
Lemma paragraphs_line p :
  ~ In NL p -> p <> [] -> strip p = p -> paragraphs p = [p].
Proof.
  intros Hnl Hne Hp. unfold paragraphs.
  rewrite split_no_sep by exact Hnl. cbn [List.filter]. rewrite Hp.
  destruct p as [|c p]; [congruence|].
  cbn [length Nat.eqb negb List.map]. now rewrite Hp.
Qed.

Lemma uint_digits d :
  Forall (fun c => (48 <= c <= 57)%N)
    (lit (NilEmpty.string_of_uint d)).
Proof.
  induction d; simpl; constructor; (exact IHd || (cbn; lia) || idtac).
Qed.

Lemma str_of_int_chars n :
  Forall (fun c => (48 <= c <= 57)%N \/ c = DASH) (str_of_int n).
Proof.
  assert (Hu : forall d,
             Forall (fun c => (48 <= c <= 57)%N \/ c = DASH)
               (lit (NilZero.string_of_uint d))).
  { intros d.
    assert (H : Forall (fun c => (48 <= c <= 57)%N \/ c = DASH)
                  (lit (NilEmpty.string_of_uint d)))
      by (eapply Forall_impl; [|apply uint_digits]; intros c Hc; now left).
    destruct d; try exact H.
    constructor; [left; cbn; lia|constructor]. }
  unfold str_of_int. destruct (Z.to_int n) as [d|d]; simpl.
  - apply Hu.
  - constructor; [now right|apply Hu].
Qed.

Lemma header_line_paragraph year :
  paragraphs (header_line year) = [header_line year].
Proof.
  apply paragraphs_line.
  - unfold header_line. intros H.
    apply in_app_or in H. destruct H as [H|H].
    + vm_compute in H. repeat (destruct H as [H|H]; [discriminate|]).
      exact H.
    + apply in_app_or in H. destruct H as [H|H].
      * pose proof (str_of_int_chars year) as Hc.
        rewrite Forall_forall in Hc. destruct (Hc _ H) as [Hd|Hd].
        -- unfold NL in Hd. lia.
        -- discriminate.
      * vm_compute in H. repeat (destruct H as [H|H]; [discriminate|]).
        exact H.
  - discriminate.
  - unfold header_line, strip, rstrip.
    change (lstrip (lit "--- Berkshire Hathaway Shareholder Letter: "
                    ++ str_of_int year ++ lit " ---"))
      with (lit "--- Berkshire Hathaway Shareholder Letter: "
            ++ str_of_int year ++ lit " ---").
    rewrite !rev_app_distr.
    change (rev (lit " ---")) with (lit "--- ").
    change (lstrip ((lit "--- " ++ rev (str_of_int year))
                    ++ rev (lit "--- Berkshire Hathaway Shareholder Letter: ")))
      with ((lit "--- " ++ rev (str_of_int year))
            ++ rev (lit "--- Berkshire Hathaway Shareholder Letter: ")).
    rewrite !rev_app_distr, !rev_involutive.
    reflexivity.
Qed.

Lemma paragraphs_add_letter all_text year letter_text :
  paragraphs (add_letter all_text (year, letter_text))
  = paragraphs all_text
    ++ header_line year :: paragraphs (clean_and_prepare_text letter_text).
Proof.
  unfold add_letter, letter_header.
  replace ((all_text ++ [NL; NL] ++ header_line year ++ [NL; NL])
           ++ clean_and_prepare_text letter_text)
    with (all_text ++ NL :: ([] ++ NL ::
            (header_line year ++ NL ::
               ([] ++ NL :: clean_and_prepare_text letter_text))))
    by (repeat (rewrite <- app_assoc; simpl); reflexivity).
  rewrite !paragraphs_app, header_line_paragraph. reflexivity.
Qed.

Lemma paragraphs_letters letters :
  forall all_text,
    paragraphs (fold_left add_letter letters all_text)
    = paragraphs all_text
      ++ flat_map
           (fun letter =>
              header_line (fst letter)
              :: paragraphs (clean_and_prepare_text (snd letter)))
           letters.
Proof.
  induction letters as [|[year letter_text] letters IH]; intros all_text.
  - simpl. now rewrite app_nil_r.
  - cbn [fold_left flat_map fst snd]. rewrite IH, paragraphs_add_letter.
    now rewrite <- app_assoc.
Qed.

(** X21: the chunks of the text gathered from the letters are, letter
    after letter in the order of the loop, the header line of the
    letter, dashes included, as a chunk of its own, then the chunks
    that the normalised text of the letter gives by itself; this for a
    maximum of at least 1 that the header lines fit. *)
Theorem letters_chunks (letters : list (Z * str)) (M : Z)
  (HM : (1 <= M)%Z)
  (Hfit : Forall (fun letter =>
                    (Z.of_nat (length (header_line (fst letter))) <= M)%Z)
            letters) :
  exists bodies,
    Forall2 (fun letter body =>
               _get_text_chunks (clean_and_prepare_text (snd letter)) M
               = Return body)
      letters bodies
    /\ _get_text_chunks (letters_text letters) M
       = Return (concat
                   (List.map (fun lb => header_line (fst (fst lb)) :: snd lb)
                      (combine letters bodies))).
Proof.
  exists (List.map
            (fun letter =>
               flat_map (para_group M)
                 (paragraphs (clean_and_prepare_text (snd letter))))
            letters).
  split.
  - clear Hfit. induction letters as [|letter letters IH]; constructor.
    + unfold _get_text_chunks. now rewrite for_paragraphs_groups.
    + exact IH.
  - unfold _get_text_chunks, letters_text.
    rewrite for_paragraphs_groups by exact HM.
    rewrite paragraphs_letters.
    change (paragraphs []) with (@nil str). cbn [app]. f_equal.
    induction Hfit as [|letter letters Hl _ IH]; [reflexivity|].
    cbn [List.map combine concat fst snd].
    rewrite <- IH.
    change (flat_map
              (fun letter0 =>
                 header_line (fst letter0)
                 :: paragraphs (clean_and_prepare_text (snd letter0)))
              (letter :: letters))
      with ((header_line (fst letter)
             :: paragraphs (clean_and_prepare_text (snd letter)))
            ++ flat_map
                 (fun letter0 =>
                    header_line (fst letter0)
                    :: paragraphs (clean_and_prepare_text (snd letter0)))
                 letters).
    rewrite flat_map_app. cbn [flat_map].
    unfold para_group at 1.
    replace (Z.of_nat (length (header_line (fst letter))) <=? M)%Z
      with true by (symmetry; apply Z.leb_le; exact Hl).
    reflexivity.
Qed.

Lemma letters_chunks_witness :
  exists bodies,
    Forall2 (fun letter body =>
               _get_text_chunks (clean_and_prepare_text (snd letter)) 3000
               = Return body)
      [(1977%Z, lit "a
b"); (1978%Z, lit "===")] bodies
    /\ _get_text_chunks
         (letters_text [(1977%Z, lit "a
b"); (1978%Z, lit "===")]) 3000
       = Return (concat
                   (List.map (fun lb => header_line (fst (fst lb)) :: snd lb)
                      (combine [(1977%Z, lit "a
b"); (1978%Z, lit "===")] bodies))).
Proof.
  apply (@letters_chunks [(1977%Z, lit "a
b"); (1978%Z, lit "===")] 3000).
  - lia.
  - repeat constructor; vm_compute; discriminate.
Defined.

Example letters_chunks_demo :
  _get_text_chunks
    (letters_text [(1977%Z, lit "a
b"); (1978%Z, lit "===")]) 3000
  = Return [lit "--- Berkshire Hathaway Shareholder Letter: 1977 ---";
            lit "a b";
            lit "--- Berkshire Hathaway Shareholder Letter: 1978 ---"].
Proof. vm_compute. reflexivity. Qed.

(** X22: once one letter has gone through the loop the gathered text is
    not blank, whatever the texts of the letters are, empty ones
    included: the test [if all_text.strip()] holds and the headers are
    sent to be spoken. *)
Theorem letters_text_not_blank (letters : list (Z * str))
  (Hsome : letters <> []) :
  strip (letters_text letters) <> []
  /\ exists year, In year (List.map fst letters)
       /\ In (header_line year) (paragraphs (letters_text letters)).
Proof.
  destruct letters as [|[year letter_text] letters]; [congruence|].
  assert (Hin : In (header_line year)
                  (paragraphs (letters_text ((year, letter_text) :: letters)))).
  { unfold letters_text. rewrite paragraphs_letters.
    cbn [flat_map fst]. apply in_or_app. right. now left. }
  split.
  - intros Hblank. apply paragraphs_blank in Hblank.
    rewrite Hblank in Hin. destruct Hin.
  - exists year. split; [now left|exact Hin].
Qed.

Lemma letters_text_not_blank_witness :
  strip (letters_text [(1977%Z, [])]) <> [].
Proof.
  apply (@letters_text_not_blank [(1977%Z, [])]). discriminate.
Defined.

(** The two cases of X4 and of X16 on small texts. *)
Lemma get_text_chunks_zero_witness :
  _get_text_chunks (lit "  ") 0 = Return []
  /\ _get_text_chunks (lit "ab") 0 = Raise ValueError.
Proof.
  split.
  - apply (proj1 (get_text_chunks_zero (lit "  "))). reflexivity.
  - apply (proj2 (get_text_chunks_zero (lit "ab"))). discriminate.
Defined.

Lemma convert_text_none_iff_blank_witness :
  convert_text_to_mp3_chunked tts_busy_once (lit " 
 ") "com" world0 = (Return None, world0)
  /\ fst (convert_text_to_mp3_chunked tts_busy_once (lit "A") "com" world0)
     <> Return None.
Proof.
  split.
  - apply (proj1 (@convert_text_none_iff_blank Samples tts_busy_once
                    (lit " 
 ") "com"%string world0)). reflexivity.
  - apply (proj2 (@convert_text_none_iff_blank Samples tts_busy_once
                    (lit "A") "com"%string world0)). discriminate.
Defined.

(** * The retry loop behind the speech library *)

(** One conversion when the [try] block is fed by gTTS: the first pass
    decides, since no failure comes as an [HTTPError]. *)
Lemma convert_via_gtts_cases (audio : AudioLib)
  (service : nat -> str -> string -> library_outcome audio)
  (chunk : str) (tld : string) (w : world) :
  _convert_chunk_to_audio (via_gtts service) chunk tld w
  = (match service (calls w) chunk tld with
     | Spoken seg => Return (Some seg)
     | HTTPFailure _ => Raise (OtherError "gTTSError")
     | OtherFailure name => Raise (OtherError name)
     end,
     {| calls := calls w + 1; log := log w ++ [Synthesize chunk tld] |}).
Proof.
  unfold _convert_chunk_to_audio. cbn [seq retries].
  rewrite attempt_loop_cons. unfold via_gtts, try_block, requested.
  replace (calls w + 1) with (S (calls w)) by lia.
  destruct (service (calls w) chunk tld); reflexivity.
Qed.

(** C2, on the program as it runs: when the service answers every
    request for a chunk with HTTP 429, gTTS raises [gTTSError], which
    the [except] clause of line 89 does not catch:
    [_convert_chunk_to_audio] makes one request, gives no warning,
    does not wait, and raises; it makes no second or third attempt and
    does not return [None]. *)
Theorem rate_limited_chunk_not_retried (audio : AudioLib)
  (service : nat -> str -> string -> library_outcome audio)
  (chunk : str) (tld : string) (w : world)
  (H429 : forall n, service n chunk tld = HTTPFailure 429) :
  _convert_chunk_to_audio (via_gtts service) chunk tld w
  = (Raise (OtherError "gTTSError"),
     {| calls := calls w + 1; log := log w ++ [Synthesize chunk tld] |})
  /\ fst (_convert_chunk_to_audio (via_gtts service) chunk tld w)
     <> Return None
  /\ calls (snd (_convert_chunk_to_audio (via_gtts service) chunk tld w))
     <> calls w + 3.
Proof.
  rewrite convert_via_gtts_cases, H429. cbn [fst snd calls].
  split; [reflexivity|]. split; [discriminate|lia].
Qed.

Lemma rate_limited_chunk_not_retried_witness :
  (forall n, service_rate_limited n (lit "A") "com" = HTTPFailure 429)
  /\ _convert_chunk_to_audio (via_gtts service_rate_limited) (lit "A")
       "com" world0
     = (Raise (OtherError "gTTSError"),
        {| calls := 1; log := [Synthesize (lit "A") "com"] |}).
Proof.
  split; [reflexivity|].
  exact (proj1 (@rate_limited_chunk_not_retried Samples
                  service_rate_limited (lit "A") "com"%string world0
                  (fun n => eq_refl))).
Defined.

(** C3, on the program as it runs: when the service answers the first
    two requests for a chunk with HTTP 429 and would answer the third
    with audio, the first answer already leaves
    [_convert_chunk_to_audio] as a [gTTSError]: one request, no wait of
    5 or 10, and the segment of the third answer is never returned. *)
Theorem rate_limited_chunk_no_third_attempt (audio : AudioLib)
  (service : nat -> str -> string -> library_outcome audio)
  (chunk : str) (tld : string) (w : world) (seg : audio)
  (H1 : service (calls w) chunk tld = HTTPFailure 429)
  (H2 : service (calls w + 1) chunk tld = HTTPFailure 429)
  (H3 : service (calls w + 2) chunk tld = Spoken seg) :
  _convert_chunk_to_audio (via_gtts service) chunk tld w
  = (Raise (OtherError "gTTSError"),
     {| calls := calls w + 1; log := log w ++ [Synthesize chunk tld] |})
  /\ fst (_convert_chunk_to_audio (via_gtts service) chunk tld w)
     <> Return (Some seg)
  /\ slept [Synthesize chunk tld] = 0%Z.
Proof.
  rewrite convert_via_gtts_cases, H1. cbn [fst].
  split; [reflexivity|]. split; [discriminate|reflexivity].
Qed.

Lemma rate_limited_chunk_no_third_attempt_witness :
  _convert_chunk_to_audio (via_gtts service_busy_twice) (lit "A")
    "com" world0
  = (Raise (OtherError "gTTSError"),
     {| calls := 1; log := [Synthesize (lit "A") "com"] |})
  /\ fst (_convert_chunk_to_audio (via_gtts service_busy_twice) (lit "A")
            "com" world0)
     <> Return (Some [0; 65]%Z).
Proof.
  destruct (@rate_limited_chunk_no_third_attempt Samples
              service_busy_twice (lit "A") "com"%string world0
              [0; 65]%Z eq_refl eq_refl eq_refl) as (H & Hne & _).
  split; [exact H|exact Hne].
Defined.

(** X12: with gTTS feeding the [try] block, every call of
    [_convert_chunk_to_audio] makes exactly one request: it returns the
    segment when the service answers with audio and raises otherwise,
    whatever the failure and whatever its HTTP status; it never warns,
    waits, asks again or returns [None]. *)
Theorem convert_chunk_via_gtts (audio : AudioLib)
  (service : nat -> str -> string -> library_outcome audio)
  (chunk : str) (tld : string) (w : world) :
  _convert_chunk_to_audio (via_gtts service) chunk tld w
  = (match service (calls w) chunk tld with
     | Spoken seg => Return (Some seg)
     | HTTPFailure _ => Raise (OtherError "gTTSError")
     | OtherFailure name => Raise (OtherError name)
     end,
     {| calls := calls w + 1; log := log w ++ [Synthesize chunk tld] |})
  /\ fst (_convert_chunk_to_audio (via_gtts service) chunk tld w)
     <> Return None.
Proof.
  rewrite convert_via_gtts_cases. split; [reflexivity|].
  cbn [fst]. destruct (service (calls w) chunk tld); discriminate.
Qed.

(** * The assembly when every request is answered *)

Section Spoken.

Variable audio : AudioLib.
Variable tts : nat -> str -> string -> attempt_outcome audio.
Variable tld : string.

Lemma convert_spoken chunk w seg :
  tts (calls w) chunk tld = Decoded seg ->
  _convert_chunk_to_audio tts chunk tld w
  = (Return (Some seg), requested chunk tld w).
Proof.
  intros H. unfold _convert_chunk_to_audio. cbn [seq retries].
  now rewrite attempt_loop_cons, H.
Qed.

(** The loop when each chunk is answered at its first request: the
    segments of non-zero length are added in order. *)
Lemma for_chunks_spoken total text_chunks :
  forall segs combined_audio i w,
    spoken_in_turn tts tld (calls w) text_chunks segs ->
    exists w',
      for_chunks tts tld total combined_audio i text_chunks w
      = (Return (fold_left (audio_add audio) (true_segments segs)
                   combined_audio), w')
      /\ calls w' = calls w + length text_chunks.
Proof.
  induction text_chunks as [|chunk rest IH];
    intros [|seg segs] combined_audio i w H; try contradiction.
  - exists w. split; [reflexivity|simpl; lia].
  - destruct H as [Hseg Hrest].
    rewrite for_chunks_cons, process_chunk_cases.
    rewrite (@convert_spoken chunk w seg Hseg).
    unfold true_segments. cbn [List.filter].
    destruct (audio_len audio seg =? 0); cbn [negb fold_left].
    + destruct (IH segs combined_audio (S i)
                  (emit (Warning (SkippingChunk (length chunk)))
                     (requested chunk tld w)) Hrest) as (w' & -> & Hc).
      exists w'. split; [reflexivity|]. cbn in Hc. simpl length. lia.
    + destruct (IH segs (audio_add audio combined_audio seg) (S i)
                  (emit (Progress (i + 1) total) (requested chunk tld w))
                  Hrest) as (w' & -> & Hc).
      exists w'. split; [reflexivity|]. cbn in Hc. simpl length. lia.
Qed.

Lemma true_segments_all segs :
  Forall (fun seg => audio_len audio seg <> 0) segs ->
  true_segments segs = segs.
Proof.
  unfold true_segments. induction 1 as [|seg segs Hseg _ IH];
    [reflexivity|].
  cbn [List.filter].
  replace (audio_len audio seg =? 0) with false
    by (symmetry; now apply Nat.eqb_neq).
  cbn [negb]. now rewrite IH.
Qed.

Lemma assemble_spoken text_chunks segs w :
  spoken_in_turn tts tld (calls w) text_chunks segs ->
  exists w',
    assemble tts text_chunks tld w
    = (Return (concat_audio (true_segments segs)), w')
    /\ calls w' = calls w + length text_chunks.
Proof.
  intros H. unfold assemble, concat_audio. unfold bind at 1, tell.
  destruct (@for_chunks_spoken (length text_chunks) text_chunks segs
              (audio_empty audio) 0 (emit ProgressStart w) H)
    as (w' & Hfor & Hc).
  exists w'. split; [exact Hfor|exact Hc].
Qed.

Lemma assemble_failure pre chunk post segs w e :
  spoken_in_turn tts tld (calls w) pre segs ->
  tts (calls w + length pre) chunk tld = Failed e ->
  e <> HTTPError 429 ->
  exists w',
    assemble tts (pre ++ chunk :: post) tld w = (Raise e, w')
    /\ calls w' = calls w + length pre + 1.
Proof.
  intros Hpre Hfail He. unfold assemble. unfold bind at 1, tell.
  destruct (@for_chunks_spoken (length (pre ++ chunk :: post)) pre segs
              (audio_empty audio) 0 (emit ProgressStart w) Hpre)
    as (w1 & Hfor & Hc).
  rewrite for_chunks_app, Hfor, for_chunks_cons, process_chunk_cases.
  cbn [calls emit] in Hc.
  unfold _convert_chunk_to_audio. cbn [seq retries].
  rewrite attempt_loop_failed with (e := e)
    by (rewrite ?Hc; assumption).
  eexists. split; [reflexivity|]. cbn [calls]. lia.
Qed.

Lemma convert_text_assemble text w :
  strip text <> [] ->
  exists text_chunks,
    _get_text_chunks text default_max_chunk_size = Return text_chunks
    /\ text_chunks <> []
    /\ convert_text_to_mp3_chunked tts text tld w
       = (match fst (assemble tts text_chunks tld w) with
          | Return final_fp => Return (Some final_fp)
          | Raise e => Raise e
          end,
          snd (assemble tts text_chunks tld w)).
Proof.
  intros Htext.
  destruct (default_chunks text) as (text_chunks & Hchunks & Hblank).
  exists text_chunks. split; [exact Hchunks|].
  split; [intros E; apply Htext, Hblank, E|].
  unfold convert_text_to_mp3_chunked.
  destruct (strip text) as [|c t]; [congruence|]. cbn [length Nat.eqb].
  rewrite Hchunks. unfold bind at 1, ret.
  destruct (assemble tts text_chunks tld w) as [[a|e] w1]; reflexivity.
Qed.

Lemma all_spoken_in_turn text_chunks :
  (forall n chunk, exists seg, tts n chunk tld = Decoded seg) ->
  forall n, exists segs, spoken_in_turn tts tld n text_chunks segs.
Proof.
  intros Hall. induction text_chunks as [|chunk rest IH]; intros n.
  - exists []. exact I.
  - destruct (Hall n chunk) as [seg Hseg].
    destruct (IH (S n)) as [segs Hsegs].
    exists (seg :: segs). now split.
Qed.

End Spoken.

(** C5, as stated, fails: when the service answers the request for the
    first chunk with HTTP 500, the failure leaves
    [convert_text_to_mp3_chunked] through the loop: the chunk is not
    skipped, no audiobook is assembled and the second chunk is never
    sent to the service, although it would have been spoken. *)
Lemma http_error_aborts_assembly :
  _get_text_chunks (lit "A
B") default_max_chunk_size = Return [lit "A"; lit "B"]
  /\ convert_text_to_mp3_chunked (via_gtts (service_down_at 0)) (lit "A
B") "com" world0
     = (Raise (OtherError "gTTSError"),
        World 1 [ProgressStart; Synthesize (lit "A") "com"])
  /\ (forall final_fp,
        fst (convert_text_to_mp3_chunked (via_gtts (service_down_at 0))
               (lit "A
B") "com" world0) <> Return (Some final_fp))
  /\ fst (_convert_chunk_to_audio (via_gtts (service_down_at 0))
            (lit "B") "com" (World 1 []))
     = Return (Some [0; 66]%Z).
Proof.
  split; [vm_compute; reflexivity|].
  split; [vm_compute; reflexivity|].
  split; [intros final_fp; vm_compute; discriminate|].
  vm_compute. reflexivity.
Qed.

(** C5, amended: for every list of chunks, when every chunk is
    synthesized and each segment has a non-zero length, the assembled
    audiobook is the concatenation, in chunk order, of the segments of
    all the chunks, one request for each.  When the synthesis of a
    chunk fails with an exception that leaves
    [_convert_chunk_to_audio] (anything but requests' [HTTPError] with
    status 429), the loop does not catch it: the run ends at that chunk
    with that exception, without an audiobook, and no request is made
    for the chunks after it.  [convert_text_to_mp3_chunked] gives the
    one or the other for the chunks of a text that is not blank. *)
Theorem assemble_concatenates (audio : AudioLib)
  (tts : nat -> str -> string -> attempt_outcome audio) (tld : string) :
  (forall text_chunks segs w,
     spoken_in_turn tts tld (calls w) text_chunks segs ->
     Forall (fun seg => audio_len audio seg <> 0) segs ->
     exists w',
       assemble tts text_chunks tld w = (Return (concat_audio segs), w')
       /\ calls w' = calls w + length text_chunks)
  /\ (forall pre chunk post segs w e,
        spoken_in_turn tts tld (calls w) pre segs ->
        tts (calls w + length pre) chunk tld = Failed e ->
        e <> HTTPError 429 ->
        exists w',
          assemble tts (pre ++ chunk :: post) tld w = (Raise e, w')
          /\ calls w' = calls w + length pre + 1)
  /\ (forall text w,
        strip text <> [] ->
        exists text_chunks,
          _get_text_chunks text default_max_chunk_size = Return text_chunks
          /\ text_chunks <> []
          /\ convert_text_to_mp3_chunked tts text tld w
             = (match fst (assemble tts text_chunks tld w) with
                | Return final_fp => Return (Some final_fp)
                | Raise e => Raise e
                end,
                snd (assemble tts text_chunks tld w))).
Proof.
  split; [|split].
  - intros text_chunks segs w Hspoken Hlen.
    destruct (@assemble_spoken audio tts tld text_chunks segs w Hspoken)
      as (w' & Hasm & Hc).
    exists w'. rewrite (@true_segments_all audio segs Hlen) in Hasm.
    now split.
  - intros pre chunk post segs w e.
    apply assemble_failure.
  - intros text w. apply convert_text_assemble.
Qed.

(** Chunks A, B, C all spoken, and chunks A, B, C with HTTP 500 at the
    request for B. *)
Lemma assemble_concatenates_witness :
  (exists w',
     assemble (via_gtts (service_down_at 7)) [lit "A"; lit "B"; lit "C"]
       "com" world0
     = (Return ([0; 65; 0; 66; 0; 67]%Z : Samples), w')
     /\ calls w' = 3)
  /\ (exists w',
        assemble (via_gtts (service_down_at 1))
          ([lit "A"] ++ lit "B" :: [lit "C"]) "com" world0
        = (Raise (OtherError "gTTSError"), w')
        /\ calls w' = 2).
Proof.
  destruct (@assemble_concatenates Samples (via_gtts (service_down_at 7))
              "com"%string) as (Hall & _ & _).
  destruct (@assemble_concatenates Samples (via_gtts (service_down_at 1))
              "com"%string) as (_ & Hfail & _).
  split.
  - apply (Hall [lit "A"; lit "B"; lit "C"]
             [[0; 65]%Z; [0; 66]%Z; [0; 67]%Z] world0).
    + repeat split.
    + repeat constructor; discriminate.
  - apply (Hfail [lit "A"] (lit "B") [lit "C"] [[0; 65]%Z] world0
             (OtherError "gTTSError")).
    + repeat split.
    + reflexivity.
    + discriminate.
Defined.

(** X17: when every request is answered with audio, the audiobook that
    [convert_text_to_mp3_chunked] returns for a text that is not blank
    is the concatenation, in chunk order, of the segments of non-zero
    length, after one request for each chunk: a chunk whose segment has
    length 0 adds nothing. *)
Theorem convert_text_true_segments (audio : AudioLib)
  (tts : nat -> str -> string -> attempt_outcome audio)
  (text : str) (tld : string) (w : world)
  (Htext : strip text <> [])
  (Hall : forall n chunk, exists seg, tts n chunk tld = Decoded seg) :
  exists text_chunks segs w',
    _get_text_chunks text default_max_chunk_size = Return text_chunks
    /\ spoken_in_turn tts tld (calls w) text_chunks segs
    /\ convert_text_to_mp3_chunked tts text tld w
       = (Return (Some (concat_audio (true_segments segs))), w')
    /\ calls w' = calls w + length text_chunks.
Proof.
  destruct (@convert_text_assemble audio tts tld text w Htext)
    as (text_chunks & Hchunks & _ & Hconv).
  destruct (@all_spoken_in_turn audio tts tld text_chunks Hall (calls w))
    as (segs & Hsegs).
  destruct (@assemble_spoken audio tts tld text_chunks segs w Hsegs)
    as (w' & Hasm & Hc).
  exists text_chunks, segs, w'.
  split; [exact Hchunks|]. split; [exact Hsegs|].
  rewrite Hconv, Hasm. now split.
Qed.

Lemma convert_text_true_segments_witness :
  exists w',
    convert_text_to_mp3_chunked (via_gtts service_silent_B) (lit "A
B
C") "com" world0 = (Return (Some [65; 67]%Z), w')
    /\ calls w' = 3.
Proof.
  destruct (@convert_text_true_segments Samples (via_gtts service_silent_B)
              (lit "A
B
C") "com"%string world0)
    as (text_chunks & segs & w' & Hchunks & Hsegs & Hconv & Hc).
  - discriminate.
  - intros n chunk. unfold via_gtts, service_silent_B, try_block. eauto.
  - vm_compute in Hchunks. injection Hchunks as <-.
    destruct segs as [|s1 [|s2 [|s3 [|s4 segs]]]]; try (cbn in Hsegs; tauto).
    cbn in Hsegs. destruct Hsegs as ([= <-] & [= <-] & [= <-] & _).
    exists w'. split; [exact Hconv|exact Hc].
Defined.
